(** * Flow backup store of the Node-RED MCP server

    A shallow embedding of the backup tools module
    ([createBackupName], [analyzeFlows], [createBackup], [getBackupFlows],
    [listBackups], [checkBackupHealth], [ensureBackupDirectory]) together
    with the runtime primitives it relies on: JavaScript strings as
    sequences of UTF-16 code units, [JSON.stringify], the UTF-8 encoding
    used by [crypto] and [fs], SHA-256, [Date.prototype.toISOString], the
    stable [Array.prototype.sort] and the double arithmetic of the health
    check. *)

From Stdlib Require Import ZArith NArith List Lia String Ascii Permutation Sorted.
From stdpp Require Import base option list sorting gmap.
Import ListNotations.

Set Default Proof Using "Type".

(** ** JavaScript strings *)

Module JsString.

(** A JavaScript string is a sequence of UTF-16 code units; [.length]
    counts code units. *)
Definition jsstring := list N.

(** An ASCII literal of the source, as code units. *)
Definition js (s : string) : jsstring :=
  List.map (fun a => N.of_nat (nat_of_ascii a)) (list_ascii_of_string s).

Definition eqb (a b : jsstring) : bool := bool_decide (a = b).

Definition is_upper (c : N) : bool := (65 <=? c)%N && (c <=? 90)%N.
Definition is_lower (c : N) : bool := (97 <=? c)%N && (c <=? 122)%N.
Definition is_digit (c : N) : bool := (48 <=? c)%N && (c <=? 57)%N.

(** [String.prototype.toLowerCase] on the Basic Latin block.  The source
    applies it only to names that already passed the name pattern, which
    contain no other letters. *)
Definition lower_unit (c : N) : N := if is_upper c then (c + 32)%N else c.
Definition toLowerCase (s : jsstring) : jsstring := List.map lower_unit s.

(** [s.substring(0, n)]. *)
Definition substring0 (n : nat) (s : jsstring) : jsstring := firstn n s.

(** [s.replace(/[-:.]/g, "")]: every '-', ':' and '.' is dropped. *)
Definition is_date_separator (c : N) : bool :=
  (c =? 45)%N || (c =? 58)%N || (c =? 46)%N.
Definition strip_date_separators (s : jsstring) : jsstring :=
  List.filter (fun c => negb (is_date_separator c)) s.

(** [s.replace("T", "_")]: a string pattern replaces the first match only. *)
Fixpoint replace_first (from to : N) (s : jsstring) : jsstring :=
  match s with
  | [] => []
  | c :: r => if (c =? from)%N then to :: r else c :: replace_first from to r
  end.

(** Surrogate halves. *)
Definition is_high_surrogate (c : N) : bool := (55296 <=? c)%N && (c <=? 56319)%N.
Definition is_low_surrogate (c : N) : bool := (56320 <=? c)%N && (c <=? 57343)%N.

(** UTF-8 encoding of a string, as [Buffer.from(s, 'utf8')] computes it:
    what [hash.update(s)] digests and [fs.writeFile(path, s)] stores.  A
    surrogate pair is one four-byte sequence; an unpaired surrogate is
    written as U+FFFD. *)
Definition utf8_of_code_point (p : N) : list N :=
  if (p <? 128)%N then [p]
  else if (p <? 2048)%N then
    [192 + p / 64; 128 + p mod 64]%N
  else if (p <? 65536)%N then
    [224 + p / 4096; 128 + (p / 64) mod 64; 128 + p mod 64]%N
  else
    [240 + p / 262144; 128 + (p / 4096) mod 64;
     128 + (p / 64) mod 64; 128 + p mod 64]%N.

Fixpoint utf8_encode (s : jsstring) : list N :=
  match s with
  | [] => []
  | c :: r =>
      if is_high_surrogate c then
        match r with
        | d :: r' =>
            if is_low_surrogate d
            then utf8_of_code_point
                   (65536 + (c - 55296) * 1024 + (d - 56320))%N
                   ++ utf8_encode r'
            else utf8_of_code_point 65533 ++ utf8_encode r
        | [] => utf8_of_code_point 65533
        end
      else if is_low_surrogate c then utf8_of_code_point 65533 ++ utf8_encode r
      else utf8_of_code_point c ++ utf8_encode r
  end.

(** Number of bytes the string occupies once written or hashed. *)
Definition byte_length (s : jsstring) : nat := length (utf8_encode s).

Definition ascii_only (s : jsstring) : Prop := Forall (fun c => (c < 128)%N) s.

(** Decimal rendering of a natural number ([String(n)]). *)
Definition digit_unit (d : N) : N := (48 + d mod 10)%N.

Fixpoint decimal_fuel (fuel : nat) (n : N) (acc : jsstring) : jsstring :=
  match fuel with
  | O => acc
  | S fuel' =>
      let acc' := digit_unit n :: acc in
      if (n <? 10)%N then acc' else decimal_fuel fuel' (n / 10)%N acc'
  end.

Definition decimal (n : N) : jsstring :=
  decimal_fuel (S (N.to_nat (N.log2 n))) n [].

(** The [k] low-order decimal digits, most significant first: the
    zero-padded fields of an ISO timestamp. *)
Fixpoint padded (k : nat) (n : N) : jsstring :=
  match k with
  | O => []
  | S k' => padded k' (n / 10)%N ++ [digit_unit n]
  end.

Definition hex_unit (d : N) : N :=
  let d := (d mod 16)%N in if (d <? 10)%N then (48 + d)%N else (87 + d)%N.

(** Fixed-width lowercase hexadecimal. *)
Fixpoint hex_padded (k : nat) (n : N) : jsstring :=
  match k with
  | O => []
  | S k' => hex_padded k' (n / 16)%N ++ [hex_unit n]
  end.

End JsString.
Import JsString.

Declare Scope js_scope.
Delimit Scope js_scope with js.
Notation "'$' s" := (js s%string) (at level 1, s at level 0, only parsing) : js_scope.

(** ** SHA-256 ([crypto.createHash("sha256")], FIPS 180-4) *)

Module Sha256.
Local Open Scope N_scope.

Definition word_mod : N := 4294967296.
Definition wrap (x : N) : N := x mod word_mod.
Definition rotr (n x : N) : N :=
  N.lor (N.shiftr x n) (wrap (N.shiftl x (32 - n))).
Definition complement (x : N) : N := word_mod - 1 - x.

Definition choose (x y z : N) : N :=
  N.lxor (N.land x y) (N.land (complement x) z).
Definition majority (x y z : N) : N :=
  N.lxor (N.lxor (N.land x y) (N.land x z)) (N.land y z).
Definition big_sigma0 (x : N) : N :=
  N.lxor (N.lxor (rotr 2 x) (rotr 13 x)) (rotr 22 x).
Definition big_sigma1 (x : N) : N :=
  N.lxor (N.lxor (rotr 6 x) (rotr 11 x)) (rotr 25 x).
Definition small_sigma0 (x : N) : N :=
  N.lxor (N.lxor (rotr 7 x) (rotr 18 x)) (N.shiftr x 3).
Definition small_sigma1 (x : N) : N :=
  N.lxor (N.lxor (rotr 17 x) (rotr 19 x)) (N.shiftr x 10).

(** The constants are taken from the primes, as the standard defines
    them: the first 32 bits of the fractional part of the cube root (round
    constants) or of the square root (initial hash value). *)
Definition is_prime (p : N) : bool :=
  forallb (fun d => negb (p mod d =? 0))
    (List.map N.of_nat (seq 2 (N.to_nat p - 2))).

Definition first_primes : list N :=
  Eval vm_compute in List.filter is_prime (List.map N.of_nat (seq 2 310)).

(** The integer cube root of [n], found bit by bit from above. *)
Fixpoint cube_root_bits (bits : nat) (n r : N) : N :=
  match bits with
  | O => r
  | S b =>
      let c := r + 2 ^ N.of_nat b in
      cube_root_bits b n (if c * c * c <=? n then c else r)
  end.

Definition round_constants : list N :=
  Eval vm_compute in
    List.map (fun p => wrap (cube_root_bits 36 (p * 2 ^ 96) 0)) first_primes.

Definition initial_hash : list N :=
  Eval vm_compute in
    List.map (fun p => wrap (N.sqrt (p * 2 ^ 64))) (firstn 8 first_primes).

(** Big-endian bytes of [x], [k] of them. *)
Fixpoint be_bytes (k : nat) (x : N) : list N :=
  match k with
  | O => []
  | S k' => be_bytes k' (x / 256) ++ [x mod 256]
  end.

Definition be_word (bs : list N) : N :=
  fold_left (fun acc b => acc * 256 + b) bs 0.

(** Message padding: a one bit, zeroes up to 56 mod 64, the bit length
    on eight bytes. *)
Definition pad (msg : list N) : list N :=
  let len := N.of_nat (length msg) in
  let zeroes := N.to_nat ((119 - len mod 64) mod 64) in
  msg ++ [128] ++ repeat 0 zeroes ++ be_bytes 8 (8 * len).

Fixpoint chunks (fuel size : nat) (l : list N) : list (list N) :=
  match fuel with
  | O => []
  | S fuel' =>
      match l with
      | [] => []
      | _ => firstn size l :: chunks fuel' size (skipn size l)
      end
  end.

(** The message schedule, most recent word first. *)
Fixpoint extend_schedule (n : nat) (w : list N) : list N :=
  match n with
  | O => w
  | S n' =>
      let next :=
        wrap (small_sigma1 (nth 1 w 0) + nth 6 w 0
              + small_sigma0 (nth 14 w 0) + nth 15 w 0) in
      extend_schedule n' (next :: w)
  end.

Definition schedule (block : list N) : list N :=
  let w16 := List.map be_word (chunks 16 4 block) in
  rev (extend_schedule 48 (rev w16)).

Definition round (st : list N) (kw : N * N) : list N :=
  match st with
  | [a; b; c; d; e; f; g; h] =>
      let t1 := wrap (h + big_sigma1 e + choose e f g + fst kw + snd kw) in
      let t2 := wrap (big_sigma0 a + majority a b c) in
      [wrap (t1 + t2); a; b; c; wrap (d + t1); e; f; g]
  | _ => st
  end.

Definition compress (h : list N) (block : list N) : list N :=
  let final := fold_left round (combine round_constants (schedule block)) h in
  List.map (fun p => wrap (fst p + snd p)) (combine h final).

Definition digest (msg : list N) : list N :=
  let padded := pad msg in
  let blocks := chunks (length padded) 64 padded in
  concat (List.map (be_bytes 4) (fold_left compress blocks initial_hash)).

(** [.update(s).digest("hex")]: the digest of the UTF-8 bytes of [s], as
    64 lowercase hexadecimal digits. *)
Definition hex (s : jsstring) : jsstring :=
  concat (List.map (hex_padded 2) (digest (utf8_encode s))).

End Sha256.

(** ** Failures

    The module throws [Error] objects told apart by their message only, and
    lets runtime exceptions through.  One constructor per throw site. *)

Inductive error :=
| InvalidNamePattern            (* "Backup name must be 1-50 characters, ..." *)
| ReservedName (name : jsstring)    (* "'<name>' is a reserved name" *)
| InvalidFlows                  (* "flows.json does not contain a valid flows array" *)
| AlreadyExists (name : jsstring)   (* "Backup '<name>' already exists" *)
| ChecksumMismatch              (* "Backup file is corrupted: checksum mismatch" *)
| BackupNotFound (name : jsstring)  (* "Backup '<name>' not found" *)
| Undecodable                   (* SyntaxError of JSON.parse, or TypeError on a
                                   document without the expected structure *)
| ElementTypeError              (* TypeError: property read on a null element *)
| NodeRedFailure                (* rejection of callNodeRed *)
| NoEntry                       (* ENOENT of the file system *)
| NotPermitted.                 (* EPERM, EBUSY, EISDIR, ...: a deletion refused *)

(** The failure classes of the specification's error taxonomy. *)
Inductive failure :=
| InvalidName | DuplicateName | NotFound | Corrupted | InvalidPayload | IOFailure.

Definition failure_of (e : error) : failure :=
  match e with
  | InvalidNamePattern | ReservedName _ => InvalidName
  | InvalidFlows | ElementTypeError => InvalidPayload
  | AlreadyExists _ => DuplicateName
  | ChecksumMismatch | Undecodable => Corrupted
  | BackupNotFound _ => NotFound
  | NodeRedFailure | NoEntry | NotPermitted => IOFailure
  end.

(** A computation that may throw. *)
Abbreviation result := (sum error).

(** ** JSON values and [JSON.stringify] *)

Module Json.

(** A value as [JSON.parse] or the Node-RED API delivers it.  A number is
    identified with its [Number::toString] rendering, which is what
    [JSON.stringify] emits for it; an object lists its own properties in
    enumeration order. *)
#[warnings="-register-all"]
Inductive json :=
| JNull
| JBool (b : bool)
| JNum (repr : jsstring)
| JStr (s : jsstring)
| JArr (elems : list json)
| JObj (props : list (jsstring * json)).

(** [QuoteJSONString]: the two-character escapes, [\u00xx] for the other
    control characters, [\udxxx] for an unpaired surrogate, everything
    else as it is. *)
Definition unicode_escape (c : N) : jsstring := [92; 117]%N ++ hex_padded 4 c.

Definition quote_unit (c : N) : jsstring :=
  if (c =? 8)%N then [92; 98]%N
  else if (c =? 9)%N then [92; 116]%N
  else if (c =? 10)%N then [92; 110]%N
  else if (c =? 12)%N then [92; 102]%N
  else if (c =? 13)%N then [92; 114]%N
  else if (c =? 34)%N then [92; 34]%N
  else if (c =? 92)%N then [92; 92]%N
  else if (c <? 32)%N then unicode_escape c
  else [c].

Fixpoint quote_units (s : jsstring) : jsstring :=
  match s with
  | [] => []
  | c :: r =>
      if is_high_surrogate c then
        match r with
        | d :: r' =>
            if is_low_surrogate d then c :: d :: quote_units r'
            else unicode_escape c ++ quote_units r
        | [] => unicode_escape c
        end
      else if is_low_surrogate c then unicode_escape c ++ quote_units r
      else quote_unit c ++ quote_units r
  end.

Definition quote (s : jsstring) : jsstring := [34%N] ++ quote_units s ++ [34%N].

Fixpoint join (sep : jsstring) (parts : list jsstring) : jsstring :=
  match parts with
  | [] => []
  | [p] => p
  | p :: rest => p ++ sep ++ join sep rest
  end.

(** The common tail of [SerializeJSONObject] and [SerializeJSONArray]:
    [stepback] is the indentation outside, [indent] the one inside. *)
Definition enclose (opening closing : N) (gap stepback indent : jsstring)
    (parts : list jsstring) : jsstring :=
  match parts with
  | [] => [opening; closing]
  | _ =>
      match gap with
      | [] => [opening] ++ join [44%N] parts ++ [closing]
      | _ => [opening] ++ [10%N] ++ indent
             ++ join ([44; 10]%N ++ indent) parts
             ++ [10%N] ++ stepback ++ [closing]
      end
  end.

Fixpoint serialize (gap stepback : jsstring) (v : json) : jsstring :=
  let indent := stepback ++ gap in
  match v with
  | JNull => js "null"
  | JBool true => js "true"
  | JBool false => js "false"
  | JNum repr => repr
  | JStr s => quote s
  | JArr elems =>
      enclose 91 93 gap stepback indent
        ((fix each (l : list json) : list jsstring :=
            match l with
            | [] => []
            | x :: r => serialize gap indent x :: each r
            end) elems)
  | JObj props =>
      enclose 123 125 gap stepback indent
        ((fix each (l : list (jsstring * json)) : list jsstring :=
            match l with
            | [] => []
            | (k, x) :: r =>
                (quote k ++ [58%N]
                 ++ match gap with [] => [] | _ => [32%N] end
                 ++ serialize gap indent x) :: each r
            end) props)
  end.

(** [JSON.stringify(v)]. *)
Definition stringify (v : json) : jsstring := serialize [] [] v.

(** [JSON.stringify(v, null, 2)]. *)
Definition stringify_indented (v : json) : jsstring := serialize [32; 32]%N [] v.

(** Own property lookup, as [o[k]] on a parsed object. *)
Fixpoint lookup_prop (k : jsstring) (props : list (jsstring * json)) : option json :=
  match props with
  | [] => None
  | (k', x) :: r => if JsString.eqb k' k then Some x else lookup_prop k r
  end.

(** [v.type]: a TypeError on [null], [undefined] (here [None]) when the
    value has no such property. *)
Definition get_type (v : json) : result (option json) :=
  match v with
  | JNull => inl ElementTypeError
  | JObj props => inr (lookup_prop (js "type") props)
  | _ => inr None
  end.

(** [ToBoolean]. *)
Definition truthy (v : option json) : bool :=
  match v with
  | None | Some JNull => false
  | Some (JBool b) => b
  | Some (JNum repr) => negb (JsString.eqb repr (js "0"))
  | Some (JStr s) => negb (JsString.eqb s [])
  | Some (JArr _) | Some (JObj _) => true
  end.

(** [v === "literal"]. *)
Definition is_string (lit : jsstring) (v : option json) : bool :=
  match v with
  | Some (JStr s) => JsString.eqb s lit
  | _ => false
  end.

End Json.
Import Json.

(** ** Double-precision arithmetic *)

Module Double.
Local Open Scope Z_scope.

(** The double nearest to 0.9 is [mantissa_0_9 * 2^-53]. *)
Definition mantissa_0_9 : Z := 8106479329266893.

(** A non-negative integer rounded to 53 significant bits, ties to even:
    the pair [(q, k)] stands for [q * 2^k]. *)
Definition round53 (p : Z) : Z * Z :=
  let k := Z.log2 p + 1 - 53 in
  if k <=? 0 then (p, 0)
  else
    let q := Z.shiftr p k in
    let r := Z.land p (Z.ones k) in
    let half := Z.shiftl 1 (k - 1) in
    if (half <? r) || ((r =? half) && Z.odd q) then (q + 1, k) else (q, k).

(** [count >= maxBackups * 0.9] in double arithmetic. *)
Definition at_least_nine_tenths (count maxBackups : nat) : bool :=
  let '(q, k) := round53 (Z.of_nat maxBackups * mantissa_0_9) in
  q * 2 ^ k <=? Z.of_nat count * 2 ^ 53.
End Double.

(** ** Instants and [toISOString] *)

Module JsDate.
Local Open Scope Z_scope.

(** An instant is its time value: milliseconds since the epoch, UTC. *)
Definition instant := Z.

(** Proleptic Gregorian date of a day number (days since 1970-01-01). *)
Definition civil_from_days (days : Z) : Z * Z * Z :=
  let z := days + 719468 in
  let era := z / 146097 in
  let doe := z - era * 146097 in
  let yoe := (doe - doe / 1460 + doe / 36524 - doe / 146096) / 365 in
  let doy := doe - (365 * yoe + yoe / 4 - yoe / 100) in
  let mp := (5 * doy + 2) / 153 in
  let d := doy - (153 * mp + 2) / 5 + 1 in
  let m := if mp <? 10 then mp + 3 else mp - 9 in
  let y := yoe + era * 400 + (if m <=? 2 then 1 else 0) in
  (y, m, d).

Definition year_of (t : instant) : Z :=
  let '(y, _, _) := civil_from_days (t / 86400000) in y.

(** Four digits for the years 0000 to 9999, otherwise the expanded form:
    a sign and six digits. *)
Definition year_field (y : Z) : jsstring :=
  if (0 <=? y) && (y <=? 9999) then padded 4 (Z.to_N y)
  else (if y <? 0 then [45%N] else [43%N]) ++ padded 6 (Z.abs_N y).

(** [new Date(t).toISOString()]. *)
Definition toISOString (t : instant) : jsstring :=
  let '(y, m, d) := civil_from_days (t / 86400000) in
  let r := t mod 86400000 in
  year_field y ++ [45%N] ++ padded 2 (Z.to_N m) ++ [45%N] ++ padded 2 (Z.to_N d)
  ++ [84%N] ++ padded 2 (Z.to_N (r / 3600000))
  ++ [58%N] ++ padded 2 (Z.to_N (r / 60000 mod 60))
  ++ [58%N] ++ padded 2 (Z.to_N (r / 1000 mod 60))
  ++ [46%N] ++ padded 3 (Z.to_N (r mod 1000)) ++ [90%N].

(** [Math.round(x / (1000 * 60))] in double arithmetic, [x] being the exact
    difference of two time values.  The subtraction yields the double
    nearest to [x]; the division yields the double nearest to the quotient,
    computed here with 71 fractional bits of which the last is sticky, so
    that [round53] rounds it as it would the quotient itself; [Math.round]
    takes the integer nearest to that double, halves going up.  Time values
    lie within 8.64e15 of the epoch, far from the overflow of doubles,
    which is left out. *)
Definition round_minutes (x : Z) : Z :=
  let '(m, k) := Double.round53 (Z.abs x) in
  let scaled := m * 2 ^ k * 2 ^ 70 in
  let sticky := if scaled mod 60000 =? 0 then 0 else 1 in
  let '(q, j) := Double.round53 (2 * (scaled / 60000) + sticky) in
  (Z.sgn x * (q * 2 ^ j) + 2 ^ 70) / 2 ^ 71.

End JsDate.
Import JsDate.

(** ** Name validation and payload analysis *)

#[global] Instance result_ret : MRet (sum error) := fun _ x => inr x.
#[global] Instance result_bind : MBind (sum error) := fun _ _ f m =>
  match m with
  | inl e => inl e
  | inr x => f x
  end.

(** The character class [[a-zA-Z0-9_\-]]. *)
Definition name_unit (c : N) : bool :=
  is_lower c || is_upper c || is_digit c || (c =? 95)%N || (c =? 45)%N.

(** [/^[a-zA-Z0-9_\-]{1,50}$/.test(s)]. *)
Definition name_pattern (s : jsstring) : bool :=
  forallb name_unit s && (1 <=? length s) && (length s <=? 50).

Definition reserved_names : list jsstring :=
  [js "latest"; js "current"; js "temp"; js "backup"].

(** [list.includes(s)]. *)
Definition includes (l : list jsstring) (s : jsstring) : bool :=
  existsb (JsString.eqb s) l.

(** [createBackupName(name, timestamp)]; [name] is [None] when the tool was
    called without one.  The empty string is falsy, so it takes the same
    branch as no name at all. *)
Definition createBackupName (name : option jsstring) (timestamp : jsstring)
    : result jsstring :=
  match name with
  | Some (c :: s) =>
      let name := c :: s in
      if negb (name_pattern name) then inl InvalidNamePattern
      else if includes reserved_names (toLowerCase name) then inl (ReservedName name)
      else inr name
  | Some [] | None =>
      inr (js "backup_"
           ++ substring0 15 (replace_first 84 95 (strip_date_separators timestamp)))
  end.

Module Analysis.
Record t := mk {
  checksum : jsstring;
  flowsCount : nat;
  nodesCount : nat;
  size : nat
}.
End Analysis.

(** [flows.filter((f) => pred(f.type))]: the callback reads [f.type], which
    throws on a [null] element. *)
Fixpoint filter_by_type (pred : option json -> bool) (elems : list json)
    : result (list json) :=
  match elems with
  | [] => inr []
  | f :: rest =>
      ty ← get_type f;
      kept ← filter_by_type pred rest;
      mret (if pred ty then f :: kept else kept)
  end.

Definition is_tab (ty : option json) : bool := is_string (js "tab") ty.

Definition is_node (ty : option json) : bool :=
  truthy ty && negb (is_string (js "tab") ty) && negb (is_string (js "subflow") ty).

(** The digest both [analyzeFlows] and the integrity checks compute:
    [createHash("sha256").update(JSON.stringify(flows)).digest("hex")]. *)
Definition flows_checksum (flows : json) : jsstring :=
  Sha256.hex (stringify flows).

Definition analyzeFlows (flows : json) : result Analysis.t :=
  match flows with
  | JArr elems =>
      tabs ← filter_by_type is_tab elems;
      nodes ← filter_by_type is_node elems;
      mret (Analysis.mk (flows_checksum flows) (length tabs) (length nodes)
              (length (stringify flows)))
  | _ => inl InvalidFlows
  end.

(** The integrity test of [getBackupFlows] and [checkBackupHealth]:
    [currentChecksum !== expected] is its negation. *)
Definition verify (flows : json) (expectedChecksum : jsstring) : bool :=
  JsString.eqb (flows_checksum flows) expectedChecksum.

(** ** Documents of the archive *)

(** The [metadata] object of a snapshot.  [timestamp] is the instant whose
    [toISOString] rendering the file holds. *)
Module Meta.
Record t := mk {
  name : jsstring;
  timestamp : instant;
  reason : jsstring;
  checksum : jsstring;
  flowsCount : nat;
  nodesCount : nat;
  size : nat
}.
End Meta.

(** An element of [backups] in the index: [{...metadata, filename}]. *)
Module Entry.
Record t := mk {
  meta : Meta.t;
  filename : jsstring
}.
Definition name (e : t) : jsstring := Meta.name (meta e).
Definition timestamp (e : t) : instant := Meta.timestamp (meta e).
Definition checksum (e : t) : jsstring := Meta.checksum (meta e).
End Entry.

(** The index document [backup_metadata.json]. *)
Module Index.
Record config_t := mk_config {
  maxBackups : nat;
  autoCleanup : bool
}.
Record t := mk {
  version : jsstring;
  config : config_t;
  backups : list Entry.t
}.
End Index.

(** A snapshot document [<name>.json]: [{metadata, flows}]. *)
Module BackupData.
Record t := mk {
  metadata : Meta.t;
  flows : json
}.
End BackupData.

(** What [JSON.parse] of a file's text yields, through the properties the
    module reads of it:
    - an index document, with [version], [config] and [backups];
    - a snapshot document, with [metadata] and [flows];
    - an index without its [config]: [backups] can be read, listed and
      checked, and the read of [metadata.config] throws;
    - a snapshot without its [metadata]: [flows] can be read and digested,
      and the read of [backupData.metadata.checksum] throws;
    - anything else: a text that [JSON.parse] rejects, or a value with
      neither [backups] nor [flows], on which the first property read
      throws.
    Entries and snapshot metadata are records with all their properties,
    as the module writes them; a [config] object that lacks [maxBackups] or
    [autoCleanup] is not among these documents. *)
Inductive document :=
| IndexDoc (index : Index.t)
| BackupDoc (data : BackupData.t)
| ConfiglessIndexDoc (version : jsstring) (backups : list Entry.t)
| FlowsDoc (flows : json)
| OtherDoc.

(** The JSON value that is written for a document. *)
Definition number (n : nat) : json := JNum (decimal (N.of_nat n)).

Definition meta_props (m : Meta.t) : list (jsstring * json) :=
  [ (js "name", JStr (Meta.name m));
    (js "timestamp", JStr (toISOString (Meta.timestamp m)));
    (js "reason", JStr (Meta.reason m));
    (js "checksum", JStr (Meta.checksum m));
    (js "flowsCount", number (Meta.flowsCount m));
    (js "nodesCount", number (Meta.nodesCount m));
    (js "size", number (Meta.size m)) ].

Definition entry_json (e : Entry.t) : json :=
  JObj (meta_props (Entry.meta e) ++ [(js "filename", JStr (Entry.filename e))]).

Definition index_json (i : Index.t) : json :=
  JObj [ (js "version", JStr (Index.version i));
         (js "config",
           JObj [ (js "maxBackups", number (Index.maxBackups (Index.config i)));
                  (js "autoCleanup", JBool (Index.autoCleanup (Index.config i))) ]);
         (js "backups", JArr (List.map entry_json (Index.backups i))) ].

Definition backup_json (d : BackupData.t) : json :=
  JObj [ (js "metadata", JObj (meta_props (BackupData.metadata d)));
         (js "flows", BackupData.flows d) ].

Definition document_json (d : document) : json :=
  match d with
  | IndexDoc i => index_json i
  | BackupDoc b => backup_json b
  | ConfiglessIndexDoc version backups =>
      JObj [ (js "version", JStr version);
             (js "backups", JArr (List.map entry_json backups)) ]
  | FlowsDoc flows => JObj [(js "flows", flows)]
  | OtherDoc => JNull
  end.

(** The property reads.  A read of a property of [undefined] throws a
    TypeError; so does the digest of an [undefined] payload. *)

(** [metadata.backups], as an array. *)
Definition doc_backups (doc : document) : result (list Entry.t) :=
  match doc with
  | IndexDoc index => inr (Index.backups index)
  | ConfiglessIndexDoc _ backups => inr backups
  | _ => inl Undecodable
  end.

(** [metadata.config.autoCleanup], [metadata.config.maxBackups]: the index
    as a whole once its [config] has been read. *)
Definition doc_index (doc : document) : result Index.t :=
  match doc with
  | IndexDoc index => inr index
  | _ => inl Undecodable
  end.

(** [backupData.flows], as digested. *)
Definition doc_flows (doc : document) : result json :=
  match doc with
  | BackupDoc data => inr (BackupData.flows data)
  | FlowsDoc flows => inr flows
  | _ => inl Undecodable
  end.

(** [backupData.metadata.checksum]: the snapshot as a whole once its
    [metadata] has been read. *)
Definition doc_snapshot (doc : document) : result BackupData.t :=
  match doc with
  | BackupDoc data => inr data
  | _ => inl Undecodable
  end.

(** ** The backup directory *)

(** A file, through the two things the module observes of it: the byte
    size [fs.stat] reports and the document its text parses to. *)
Record file := mk_file {
  file_size : N;
  file_doc : document
}.

(** The backup directory: absent, or a map from file names (relative to
    the directory) to files.  Where the directory lies ([getPaths]) plays
    no part in what follows. *)
Definition Store : Type := option (gmap jsstring file).

Definition metadataFile : jsstring := js "backup_metadata.json".

(** [`${name}.json`]. *)
Definition json_file (name : jsstring) : jsstring := name ++ js ".json".

Definition lookup_file (path : jsstring) (fs : Store) : option file :=
  dir ← fs; dir !! path.

(** ** Effects: the file system threaded through, exceptions as results.
    A thrown exception keeps the writes made before it. *)

Definition M (A : Type) : Type := Store -> result A * Store.

#[global] Instance M_ret : MRet M := fun _ x fs => (inr x, fs).
#[global] Instance M_bind : MBind M := fun _ _ f m fs =>
  match m fs with
  | (inl e, fs') => (inl e, fs')
  | (inr x, fs') => f x fs'
  end.

Definition throw {A} (e : error) : M A := fun fs => (inl e, fs).

Definition lift {A} (r : result A) : M A := fun fs => (r, fs).

(** [try { body } catch (err) { handler(err) }]. *)
Definition try_catch {A} (body : M A) (handler : error -> M A) : M A := fun fs =>
  match body fs with
  | (inl e, fs') => handler e fs'
  | ok => ok
  end.

(** [fs.mkdir(backupDir, { recursive: true })]. *)
Definition mkdir : M () := fun fs =>
  match fs with
  | None => (inr (), Some ∅)
  | Some _ => (inr (), fs)
  end.

(** [fs.access(path)]. *)
Definition access (path : jsstring) : M () := fun fs =>
  match lookup_file path fs with
  | Some _ => (inr (), fs)
  | None => (inl NoEntry, fs)
  end.

(** [fs.writeFile(path, JSON.stringify(doc, null, 2))].  The file holds the
    indented text of the document; parsing that text gives the document
    back. *)
Definition writeFile (path : jsstring) (doc : document) : M () := fun fs =>
  match fs with
  | Some dir =>
      let text := stringify_indented (document_json doc) in
      (inr (), Some (<[path := mk_file (N.of_nat (byte_length text)) doc]> dir))
  | None => (inl NoEntry, fs)
  end.

(** [JSON.parse(await fs.readFile(path, "utf8"))].  A text that does not
    parse is read as [OtherDoc]: every parse is followed at once by a
    property read, where its failure shows. *)
Definition readFile (path : jsstring) : M document := fun fs =>
  match lookup_file path fs with
  | Some f => (inr (file_doc f), fs)
  | None => (inl NoEntry, fs)
  end.

(** [(await fs.stat(path)).size]. *)
Definition stat_size (path : jsstring) : M N := fun fs =>
  match lookup_file path fs with
  | Some f => (inr (file_size f), fs)
  | None => (inl NoEntry, fs)
  end.

(** [fs.unlink(path)].  The file system may refuse to delete a file that
    exists; [refused] tells for which paths it does at this call. *)
Definition unlink (refused : jsstring → bool) (path : jsstring) : M () := fun fs =>
  match lookup_file path fs with
  | Some _ =>
      if refused path then (inl NotPermitted, fs) else (inr (), delete path <$> fs)
  | None => (inl NoEntry, fs)
  end.

(** ** Runtime configuration and the outside world *)

(** The capacity is a natural number, as the specification has it
    ("positive integer, default 10"); zero is falsy and yields the default.
    A negative capacity, which the command line's [parseInt] lets through,
    is outside these configurations. *)
Record BackupOptions := mk_options {
  opt_maxBackups : option nat;     (* config.backup.maxBackups *)
  opt_autoCleanup : option bool    (* config.backup.autoCleanup *)
}.

Record ServerConfig := mk_server_config {
  backup : option BackupOptions    (* config.backup *)
}.

Module DEFAULTS.
Definition maxBackups : nat := 10.
Definition autoCleanup : bool := true.
End DEFAULTS.

(** What one call observes outside the directory: the clock, the answer
    of [callNodeRed("get", "/flows")], and the files the file system
    refuses to delete. *)
Record World := mk_world {
  now : instant;
  nodeRedFlows : result json;
  undeletable : jsstring → bool
}.

(** [config.backup?.maxBackups || DEFAULTS.maxBackups]. *)
Definition configured_maxBackups (config : ServerConfig) : nat :=
  match backup config ≫= opt_maxBackups with
  | Some (S n) => S n
  | Some O | None => DEFAULTS.maxBackups
  end.

(** [config.backup?.autoCleanup ?? DEFAULTS.autoCleanup]. *)
Definition configured_autoCleanup (config : ServerConfig) : bool :=
  default DEFAULTS.autoCleanup (backup config ≫= opt_autoCleanup).

Definition initialMetadata (config : ServerConfig) : Index.t :=
  Index.mk (js "1.0")
    (Index.mk_config (configured_maxBackups config) (configured_autoCleanup config))
    [].

Definition ensureBackupDirectory (config : ServerConfig) : M () :=
  mkdir;;
  try_catch (access metadataFile)
    (fun _ => writeFile metadataFile (IndexDoc (initialMetadata config))).

(** ** Sorting and the one floating-point product *)

(** [backups.sort((a, b) => new Date(b.timestamp) - new Date(a.timestamp))]:
    newest first.  [Array.prototype.sort] is stable, which fixes the result:
    entries with equal timestamps keep their relative order. *)
Fixpoint insert_newest_first (x : Entry.t) (l : list Entry.t) : list Entry.t :=
  match l with
  | [] => [x]
  | y :: rest =>
      if (Entry.timestamp y <=? Entry.timestamp x)%Z then x :: l
      else y :: insert_newest_first x rest
  end.

Definition sort_newest_first (l : list Entry.t) : list Entry.t :=
  foldr insert_newest_first [] l.

(** ** The operations *)

Definition manual_backup : jsstring := js "Manual backup".

(** [for (const backup of toDelete) { try { unlink } catch {} }]. *)
Fixpoint unlink_each (refused : jsstring → bool) (toDelete : list Entry.t)
    : M () :=
  match toDelete with
  | [] => mret ()
  | backup :: rest =>
      try_catch (unlink refused (Entry.filename backup)) (fun _ => mret ());;
      unlink_each refused rest
  end.

(** The auto-cleanup step of [createBackup], on the list just pushed to. *)
Definition auto_cleanup (refused : jsstring → bool) (config : Index.config_t)
    (backups : list Entry.t) : M (list Entry.t) :=
  if Index.autoCleanup config && (Index.maxBackups config <? length backups) then
    let sortedBackups := sort_newest_first backups in
    let toDelete := skipn (Index.maxBackups config) sortedBackups in
    unlink_each refused toDelete;;
    mret (firstn (Index.maxBackups config) sortedBackups)
  else mret backups.

Definition createBackup (name reason : option jsstring) (config : ServerConfig)
    (world : World) : M Meta.t :=
  ensureBackupDirectory config;;
  flows ← lift (nodeRedFlows world);
  let timestamp := now world in
  backupName ← lift (createBackupName name (toISOString timestamp));
  analysis ← lift (analyzeFlows flows);
  parsed ← readFile metadataFile;
  backups ← lift (doc_backups parsed);
  if existsb (fun b => JsString.eqb (Entry.name b) backupName) backups
  then throw (AlreadyExists backupName)
  else
    let backupData :=
      BackupData.mk
        (Meta.mk backupName timestamp
           (match reason with Some (c :: r) => c :: r | _ => manual_backup end)
           (Analysis.checksum analysis) (Analysis.flowsCount analysis)
           (Analysis.nodesCount analysis) (Analysis.size analysis))
        flows in
    writeFile (json_file backupName) (BackupDoc backupData);;
    let pushed :=
      backups ++ [Entry.mk (BackupData.metadata backupData) (json_file backupName)] in
    (* The first read of [metadata.config] comes here, after the snapshot
       file is written. *)
    metadata ← lift (doc_index parsed);
    kept ← auto_cleanup (undeletable world) (Index.config metadata) pushed;
    writeFile metadataFile
      (IndexDoc (Index.mk (Index.version metadata) (Index.config metadata) kept));;
    mret (BackupData.metadata backupData).

Definition getBackupFlows (backupName : jsstring) (config : ServerConfig)
    : M BackupData.t :=
  ensureBackupDirectory config;;
  try_catch
    (parsed ← readFile (json_file backupName);
     flows ← lift (doc_flows parsed);
     backupData ← lift (doc_snapshot parsed);
     if negb (verify flows (Meta.checksum (BackupData.metadata backupData)))
     then throw ChecksumMismatch
     else mret backupData)
    (fun err =>
       match err with
       | NoEntry => throw (BackupNotFound backupName)
       | _ => throw err
       end).

Module BackupView.
(** The three properties spread in only when [detailed] is truthy. *)
Record details_t := mk_details {
  flowsCount : nat;
  nodesCount : nat;
  size : nat
}.
Record t := mk {
  name : jsstring;
  timestamp : instant;
  reason : jsstring;
  isLatest : bool;
  details : option details_t
}.
End BackupView.

Definition view (detailed : bool) (index : nat) (backup : Entry.t) : BackupView.t :=
  let m := Entry.meta backup in
  BackupView.mk (Meta.name m) (Meta.timestamp m) (Meta.reason m) (index =? 0)
    (if detailed
     then Some (BackupView.mk_details (Meta.flowsCount m) (Meta.nodesCount m) (Meta.size m))
     else None).

(** [detailed] is [None] when the tool was called without it. *)
Definition listBackups (detailed : option bool) (config : ServerConfig)
    : M (list BackupView.t) :=
  ensureBackupDirectory config;;
  parsed ← readFile metadataFile;
  backups ← lift (doc_backups parsed);
  let sortedBackups := sort_newest_first backups in
  mret (imap (view (default false detailed)) sortedBackups).

Inductive issue :=
| NoBackupsFound          (* "No backups found. Create your first backup immediately" *)
| CorruptedBackups (corruptedCount : nat)   (* "Found <n> corrupted backup(s)" *)
| LatestBackupOld         (* "Latest backup is over 24 hours old. ..." *)
| ApproachingLimit (count maxBackups : nat) (* "Backup count approaching limit (c/m)" *)
| SignificantDiskSpace    (* "Backup files are using significant disk space. ..." *)
| InitializationFailed.   (* "Backup system initialization failed, ..." *)

Module Health.
Record t := mk {
  healthy : bool;
  count : nat;
  totalSize : N;
  latestAge : option Z;
  issues : list issue
}.
End Health.

(** One turn of the integrity loop on the running [(totalSize,
    corruptedCount)].  [totalSize] is increased as soon as [stat] succeeds,
    so it keeps the increase when the read or the parse throws after it. *)
Definition check_file (backup : Entry.t) (acc : N * nat) : M (N * nat) :=
  let '(totalSize, corruptedCount) := acc in
  try_catch
    (statSize ← stat_size (Entry.filename backup);
     try_catch
       (parsed ← readFile (Entry.filename backup);
        flows ← lift (doc_flows parsed);
        mret ((totalSize + statSize)%N,
              if verify flows (Entry.checksum backup)
              then corruptedCount else S corruptedCount))
       (fun _ => mret ((totalSize + statSize)%N, S corruptedCount)))
    (fun _ => mret (totalSize, S corruptedCount)).

Fixpoint check_files (backups : list Entry.t) (acc : N * nat) : M (N * nat) :=
  match backups with
  | [] => mret acc
  | backup :: rest => acc' ← check_file backup acc; check_files rest acc'
  end.

(** [health.latestAge && health.latestAge > 24]. *)
Definition latest_is_old (latestAge : option Z) : bool :=
  match latestAge with
  | Some age => negb (age =? 0)%Z && (24 <? age)%Z
  | None => false
  end.

Definition disk_space_threshold : N := 100 * 1024 * 1024.

Definition checkBackupHealth (config : ServerConfig) (world : World) : M Health.t :=
  ensureBackupDirectory config;;
  try_catch
    (parsed ← readFile metadataFile;
     backups ← lift (doc_backups parsed);
     let count := length backups in
     if count =? 0 then mret (Health.mk false count 0 None [NoBackupsFound])
     else
       '(totalSize, corruptedCount) ← check_files backups (0%N, 0);
       let latestAge :=
         (fun latestBackup => round_minutes (now world - Entry.timestamp latestBackup))
           <$> head (sort_newest_first backups) in
       let corrupted :=
         if 0 <? corruptedCount then [CorruptedBackups corruptedCount] else [] in
       let old := if latest_is_old latestAge then [LatestBackupOld] else [] in
       match doc_index parsed with
       | inr metadata =>
           let maxBackups := Index.maxBackups (Index.config metadata) in
           mret (Health.mk (negb (0 <? corruptedCount)) count totalSize latestAge
                   (corrupted ++ old
                    ++ (if Double.at_least_nine_tenths count maxBackups
                        then [ApproachingLimit count maxBackups] else [])
                    ++ (if (disk_space_threshold <? totalSize)%N
                        then [SignificantDiskSpace] else [])))
       | inl _ =>
           (* The read of [metadata.config.maxBackups] throws into the
              [catch], which marks the [health] object as it stands by
              then: count, size, age and the issues pushed so far stay. *)
           mret (Health.mk false count totalSize latestAge
                   (corrupted ++ old ++ [InitializationFailed]))
       end)
    (* The read and the parse of the index and the read of
       [metadata.backups] throw before [health] is touched. *)
    (fun _ => mret (Health.mk false 0 0 None [InitializationFailed])).

(** * Vocabulary of the properties *)

(** ** Order of entries *)

(** [a] may stand before [b] in a newest-first list. *)
Definition not_older (a b : Entry.t) : Prop :=
  (Entry.timestamp b <= Entry.timestamp a)%Z.

Definition newer (a b : Entry.t) : Prop :=
  (Entry.timestamp b < Entry.timestamp a)%Z.

(** ** The initialized directory *)

(** The index file written on first use. *)
Definition initial_file (config : ServerConfig) : file :=
  mk_file
    (N.of_nat (byte_length (stringify_indented (index_json (initialMetadata config)))))
    (IndexDoc (initialMetadata config)).

(** The directory after [ensureBackupDirectory]: an index is added
    when there is none. *)
Definition init_dir (config : ServerConfig) (dir : gmap jsstring file)
    : gmap jsstring file :=
  match dir !! metadataFile with
  | Some _ => dir
  | None => <[metadataFile := initial_file config]> dir
  end.

Definition initialized (config : ServerConfig) (fs : Store) : Store :=
  Some (init_dir config (default ∅ fs)).

(** ** Counting elements *)

(** The [type] property of an element, [None] when it has none. *)
Definition type_of (e : json) : option json :=
  match e with
  | JObj props => lookup_prop (js "type") props
  | _ => None
  end.

(** The number of elements of a sequence that satisfy [P]. *)
Inductive count_where (P : json → Prop) : list json → nat → Prop :=
| count_nil : count_where P [] 0
| count_hit e l n : P e → count_where P l n → count_where P (e :: l) (S n)
| count_miss e l n : ¬ P e → count_where P l n → count_where P (e :: l) n.

Definition tab_element (e : json) : Prop :=
  type_of e = Some (JStr (js "tab")).

(** An element counted as a node by the code: its [type] is truthy (there,
    and neither [null], [false], [0] nor the empty string) and is neither
    the tab nor the subflow discriminator. *)
Definition node_element (e : json) : Prop :=
  truthy (type_of e) = true
  ∧ type_of e ≠ Some (JStr (js "tab"))
  ∧ type_of e ≠ Some (JStr (js "subflow")).

(** The counting rule in the words of the specification: the [type] is
    present and differs from both discriminators. *)
Definition node_element_as_specified (e : json) : Prop :=
  ∃ ty, type_of e = Some ty ∧ ty ≠ JStr (js "tab") ∧ ty ≠ JStr (js "subflow").

(** ** Names up to case *)



(** ** The steps of a creation *)

(** What auto-cleanup keeps of the list just pushed to. *)
Definition kept_backups (cfg : Index.config_t) (pushed : list Entry.t)
    : list Entry.t :=
  if Index.autoCleanup cfg && (Index.maxBackups cfg <? length pushed)
  then take (Index.maxBackups cfg) (sort_newest_first pushed)
  else pushed.

(** The metadata of the snapshot being created. *)
Definition created_meta (backupName : jsstring) (world : World)
    (reason : option jsstring) (analysis : Analysis.t) : Meta.t :=
  Meta.mk backupName (now world)
    (match reason with Some (c :: r) => c :: r | _ => manual_backup end)
    (Analysis.checksum analysis) (Analysis.flowsCount analysis)
    (Analysis.nodesCount analysis) (Analysis.size analysis).

(** The tail of [createBackup] after the duplicate check. *)
Definition persist_backup (refused : jsstring → bool) (metadata : Index.t)
    (md : Meta.t) (flows : json) : M Meta.t :=
  writeFile (json_file (Meta.name md)) (BackupDoc (BackupData.mk md flows));;
  kept ← auto_cleanup refused (Index.config metadata)
           (Index.backups metadata ++ [Entry.mk md (json_file (Meta.name md))]);
  writeFile metadataFile
    (IndexDoc (Index.mk (Index.version metadata) (Index.config metadata) kept));;
  mret md.

(** ** Views *)

(** What a view shows of an entry. *)
Definition shows (detailed : bool) (e : Entry.t) (v : BackupView.t) : Prop :=
  BackupView.name v = Entry.name e
  ∧ BackupView.timestamp v = Entry.timestamp e
  ∧ BackupView.reason v = Meta.reason (Entry.meta e)
  ∧ BackupView.details v
    = if detailed
      then Some (BackupView.mk_details (Meta.flowsCount (Entry.meta e))
                   (Meta.nodesCount (Entry.meta e)) (Meta.size (Entry.meta e)))
      else None.

(** ** Generated names *)

Definition digits (s : jsstring) : Prop := Forall (λ c, is_digit c = true) s.

(** The date and the time of day of an instant, as [YYYYMMDD] and
    [HHMMSS]. *)
Definition date_digits (t : instant) : jsstring :=
  let '(y, m, d) := civil_from_days (t / 86400000) in
  padded 4 (Z.to_N y) ++ padded 2 (Z.to_N m) ++ padded 2 (Z.to_N d).

Definition time_digits (t : instant) : jsstring :=
  let r := (t mod 86400000)%Z in
  padded 2 (Z.to_N (r / 3600000)) ++ padded 2 (Z.to_N (r / 60000 mod 60))
  ++ padded 2 (Z.to_N (r / 1000 mod 60)).

Definition millisecond_digits (t : instant) : jsstring :=
  padded 3 (Z.to_N ((t mod 86400000) mod 1000)).

(** The rank in its year (from March) of a day of the 400-year era, and
    the month and day of a day of that rank, as [civil_from_days] derives
    them. *)
Definition year_day_of_era_day (doe : Z) : Z :=
  let yoe := ((doe - doe / 1460 + doe / 36524 - doe / 146096) / 365)%Z in
  (doe - (365 * yoe + yoe / 4 - yoe / 100))%Z.

Definition month_day_of_year_day (doy : Z) : Z * Z :=
  let mp := ((5 * doy + 2) / 153)%Z in
  (if (mp <? 10)%Z then mp + 3 else mp - 9, doy - (153 * mp + 2) / 5 + 1)%Z.

(** The name generated at an instant: [backup_YYYYMMDD_HHMMSS]. *)
Definition compact_name (t : instant) : jsstring :=
  js "backup_" ++ date_digits t ++ [95%N] ++ time_digits t.

(** ** Sample data *)

Definition two_flow_records : list json :=
  [ JObj [(js "id", JStr (js "f1")); (js "type", JStr (js "tab"))];
    JObj [(js "id", JStr (js "n1")); (js "type", JStr (js "inject"))] ].

(** A record whose [type] is the empty string. *)
Definition untyped_record : json := JObj [(js "type", JStr [])].

(** A tab whose label is the single letter e with an acute accent. *)
Definition accented_tab : json :=
  JObj [(js "type", JStr (js "tab")); (js "label", JStr [233%N])].

Definition sample_flows : json := JArr two_flow_records.

(** 2025-11-03T06:36:00.123Z *)
Definition sample_time : instant := 1762151760123%Z.

(** The file system refuses no deletion. *)
Definition sample_world (t : instant) : World :=
  mk_world t (inr sample_flows) (λ _, false).

Definition sample_config : ServerConfig :=
  mk_server_config (Some (mk_options (Some 2) None)).

Definition sample_entry (name : string) (t : instant) : Entry.t :=
  Entry.mk
    (Meta.mk (js name) t manual_backup (flows_checksum sample_flows) 1 1
       (length (stringify sample_flows)))
    (json_file (js name)).

(** A directory that holds a full index and none of the snapshot files
    it lists: deleting an evicted entry's file fails here. *)
Definition index_only_store : Store :=
  Some {[ metadataFile :=
            mk_file 0
              (IndexDoc
                 (Index.mk (js "1.0") (Index.mk_config 2 true)
                    [ sample_entry "a" (sample_time - 2000)%Z;
                      sample_entry "b" (sample_time - 1000)%Z ])) ]}.

(** Observations of a run, for the examples. *)
Definition created_name (r : result Meta.t) : option jsstring :=
  match r with
  | inr md => Some (Meta.name md)
  | inl _ => None
  end.

Definition has_file (path : jsstring) (fs : Store) : bool :=
  match lookup_file path fs with
  | Some _ => true
  | None => false
  end.

Definition stored_index (fs : Store) : option Index.t :=
  match file_doc <$> lookup_file metadataFile fs with
  | Some (IndexDoc index) => Some index
  | _ => None
  end.

Definition index_names (fs : Store) : option (list jsstring) :=
  (λ index, Entry.name <$> Index.backups index) <$> stored_index fs.

(** The directory after a first backup named "daily". *)
Definition daily_store : Store :=
  (createBackup (Some (js "daily")) None sample_config (sample_world sample_time)
     None).2.

(** The "daily" snapshot with one record removed from its payload, the
    recorded checksum left as it was. *)
Definition altered_flows : json :=
  JArr [JObj [(js "id", JStr (js "f1")); (js "type", JStr (js "tab"))]].

Definition altered_file : file :=
  mk_file 300
    (BackupDoc
       (BackupData.mk (Entry.meta (sample_entry "daily" sample_time)) altered_flows)).

Definition altered_store : Store :=
  (λ dir, <[json_file (js "daily") := altered_file]> dir) <$> daily_store.

(** The directory after two backups, "a" then "b", made within the same
    millisecond: the index holds two entries of one and the same
    timestamp. *)
Definition twin_store : Store :=
  (createBackup (Some (js "b")) None sample_config (sample_world sample_time)
     (createBackup (Some (js "a")) None sample_config (sample_world sample_time)
        None).2).2.

(** Five backups made one second apart in a fresh directory of capacity
    three. *)
Definition capacity_three : ServerConfig :=
  mk_server_config (Some (mk_options (Some 3) None)).

Fixpoint create_each (names : list string) (t : instant) (fs : Store) : Store :=
  match names with
  | [] => fs
  | name :: rest =>
      create_each rest (t + 1000)%Z
        (createBackup (Some (js name)) None capacity_three (sample_world t) fs).2
  end.

Definition five_backups : Store :=
  create_each ["b1"; "b2"; "b3"; "b4"; "b5"]%string sample_time None.

(** The "daily" directory with a file of another kind beside the
    backups. *)
Definition stray_file : file := mk_file 5 OtherDoc.

Definition stray_store : Store :=
  (λ dir, <[js "notes.txt" := stray_file]> dir) <$> daily_store.

(** A directory whose index file does not decode as an index. *)
Definition broken_store : Store := Some {[ metadataFile := stray_file ]}.

(** A directory whose index file holds two entries and no [config], and
    none of the snapshot files. *)
Definition configless_store : Store :=
  Some {[ metadataFile :=
            mk_file 0
              (ConfiglessIndexDoc (js "1.0")
                 [ sample_entry "a" (sample_time - 2000)%Z;
                   sample_entry "b" (sample_time - 1000)%Z ]) ]}.

(** The "daily" directory with the snapshot file replaced by a file that
    holds the flows and no metadata. *)
Definition payload_only_store : Store :=
  (λ dir, <[json_file (js "daily") := mk_file 120 (FlowsDoc sample_flows)]> dir)
    <$> daily_store.

(** The analysis of the sample flows. *)
Definition sample_analysis : Analysis.t :=
  Analysis.mk (flows_checksum sample_flows) 1 1 (length (stringify sample_flows)).

(** A world whose file system refuses every deletion. *)
Definition stubborn_world (t : instant) : World :=
  mk_world t (inr sample_flows) (λ _, true).

(** The index of the twin directory. *)
Definition twin_index : Index.t :=
  Index.mk (js "1.0") (Index.mk_config 2 true)
    [sample_entry "a" sample_time; sample_entry "b" sample_time].

(** The metadata a creation returns for the sample flows. *)
Definition sample_meta (name : string) (t : instant) : Meta.t :=
  Entry.meta (sample_entry name t).

(** A creation of the sample flows under the sample configuration. *)
Definition sample_create (name : string) (t : instant) : M Meta.t :=
  createBackup (Some (js name)) None sample_config (sample_world t).

(** ** The directory after a creation *)

(** The file that [writeFile] leaves for a document. *)
Definition written_file (doc : document) : file :=
  mk_file (N.of_nat (byte_length (stringify_indented (document_json doc)))) doc.

(** The directory with the snapshot file of a creation written and nothing
    else done. *)
Definition with_snapshot (md : Meta.t) (flows : json) (fs : Store) : Store :=
  (λ dir, <[json_file (Meta.name md) :=
              written_file (BackupDoc (BackupData.mk md flows))]> dir) <$> fs.

(** The directory without the files the given entries name, those apart
    whose deletion is refused. *)
Definition remove_files (refused : jsstring → bool) (l : list Entry.t)
    (dir : gmap jsstring file) : gmap jsstring file :=
  foldl (λ d e, if refused (Entry.filename e) then d
                else delete (Entry.filename e) d) dir l.

(** What auto-cleanup evicts from the list just pushed to. *)
Definition evicted_backups (cfg : Index.config_t) (pushed : list Entry.t)
    : list Entry.t :=
  if Index.autoCleanup cfg && (Index.maxBackups cfg <? length pushed)
  then drop (Index.maxBackups cfg) (sort_newest_first pushed)
  else [].

(** The entry pushed for a snapshot. *)
Definition new_entry (md : Meta.t) : Entry.t :=
  Entry.mk md (json_file (Meta.name md)).

(** The directory a completed creation leaves, from the initialized
    directory [dir], the index [old] read from it, and the metadata and
    payload of the new snapshot. *)
Definition created_dir (refused : jsstring → bool) (old : Index.t)
    (md : Meta.t) (flows : json) (dir : gmap jsstring file)
    : gmap jsstring file :=
  let pushed := Index.backups old ++ [new_entry md] in
  <[metadataFile :=
      written_file
        (IndexDoc
           (Index.mk (Index.version old) (Index.config old)
              (kept_backups (Index.config old) pushed)))]>
    (remove_files refused (evicted_backups (Index.config old) pushed)
       (<[json_file (Meta.name md) :=
            written_file (BackupDoc (BackupData.mk md flows))]> dir)).

(** ** Archives in order *)

(** An entry is backed by its file: the file is named after the entry, is
    not the index file, and holds a snapshot with the entry's metadata and a
    payload of the recorded checksum. *)
Definition backed (fs : Store) (e : Entry.t) : Prop :=
  Entry.filename e = json_file (Entry.name e)
  ∧ Entry.filename e ≠ metadataFile
  ∧ ∃ f flows,
      lookup_file (Entry.filename e) fs = Some f
      ∧ file_doc f = BackupDoc (BackupData.mk (Entry.meta e) flows)
      ∧ verify flows (Entry.checksum e) = true.

(** An archive in order: a readable index whose names are pairwise
    distinct and whose entries are all backed. *)
Definition consistent (fs : Store) : Prop :=
  ∃ index,
    stored_index fs = Some index
    ∧ NoDup (Entry.name <$> Index.backups index)
    ∧ Forall (backed fs) (Index.backups index).

(** ** The integrity loop of the health check *)

(** The file of an entry passes the check of the loop. *)
Definition entry_intact (fs : Store) (e : Entry.t) : bool :=
  match file_doc <$> lookup_file (Entry.filename e) fs with
  | Some doc =>
      match doc_flows doc with
      | inr flows => verify flows (Entry.checksum e)
      | inl _ => false
      end
  | None => false
  end.

(** The size [stat] reports for the file of an entry, 0 when there is no
    file. *)
Definition entry_file_size (fs : Store) (e : Entry.t) : N :=
  match lookup_file (Entry.filename e) fs with
  | Some f => file_size f
  | None => 0%N
  end.

Definition corrupted_entries (fs : Store) (l : list Entry.t) : list Entry.t :=
  List.filter (λ e, negb (entry_intact fs e)) l.

Definition total_file_size (fs : Store) (l : list Entry.t) : N :=
  foldr (λ e acc, (entry_file_size fs e + acc)%N) 0%N l.

(** The report when the index cannot be read as far as its [backups]. *)
Definition failed_report : Health.t :=
  Health.mk false 0 0 None [InitializationFailed].

(** The report on an index document whose [backups] are read, in terms of
    the entries that fail the check. *)
Definition health_report (world : World) (fs : Store) (doc : document)
    (backups : list Entry.t) : Health.t :=
  let count := length backups in
  let corruptedCount := length (corrupted_entries fs backups) in
  let totalSize := total_file_size fs backups in
  let latestAge :=
    (λ latestBackup, round_minutes (now world - Entry.timestamp latestBackup))
      <$> head (sort_newest_first backups) in
  let corrupted :=
    if 0 <? corruptedCount then [CorruptedBackups corruptedCount] else [] in
  let old := if latest_is_old latestAge then [LatestBackupOld] else [] in
  if count =? 0 then Health.mk false count 0 None [NoBackupsFound]
  else
    match doc_index doc with
    | inr metadata =>
        let maxBackups := Index.maxBackups (Index.config metadata) in
        Health.mk (negb (0 <? corruptedCount)) count totalSize latestAge
          (corrupted ++ old
           ++ (if Double.at_least_nine_tenths count maxBackups
               then [ApproachingLimit count maxBackups] else [])
           ++ (if (disk_space_threshold <? totalSize)%N
               then [SignificantDiskSpace] else []))
    | inl _ =>
        Health.mk false count totalSize latestAge
          (corrupted ++ old ++ [InitializationFailed])
    end.

(** An index file whose [backups] cannot be read: its text is not JSON, or
    the value has no such property. *)
Definition unreadable_index (doc : document) : Prop :=
  match doc with
  | IndexDoc _ | ConfiglessIndexDoc _ _ => False
  | _ => True
  end.

(** ** Ranks by time *)

(** The entries made at the instant [t] or later, those made before it, and
    those made at it, in the order of the list. *)
Definition at_least_as_recent (t : instant) (l : list Entry.t) : list Entry.t :=
  List.filter (λ e, (t <=? Entry.timestamp e)%Z) l.

Definition made_before (t : instant) (l : list Entry.t) : list Entry.t :=
  List.filter (λ e, (Entry.timestamp e <? t)%Z) l.

Definition made_at (t : instant) (l : list Entry.t) : list Entry.t :=
  List.filter (λ e, (Entry.timestamp e =? t)%Z) l.

(** The names the views of the instant [t] show, in the order of the
    listing. *)
Definition listed_at (t : instant) (views : list BackupView.t) : list jsstring :=
  BackupView.name <$> List.filter (λ v, (BackupView.timestamp v =? t)%Z) views.

(** ** Sessions *)

(** With cleanup on, the index holds no more entries than its capacity. *)
Definition within_capacity (index : Index.t) : Prop :=
  Index.autoCleanup (Index.config index) = true →
  length (Index.backups index) ≤ Index.maxBackups (Index.config index).

(** A call of one of the four tools, with what it reads of the world at that
    moment. *)
Inductive call :=
| BackupFlows (name reason : option jsstring) (world : World)
| ListBackups (detailed : option bool)
| GetBackupFlows (name : jsstring)
| BackupHealth (world : World).

(** The directory a call leaves. *)
Definition after_call (config : ServerConfig) (c : call) (fs : Store) : Store :=
  match c with
  | BackupFlows name reason world => (createBackup name reason config world fs).2
  | ListBackups detailed => (listBackups detailed config fs).2
  | GetBackupFlows name => (getBackupFlows name config fs).2
  | BackupHealth world => (checkBackupHealth config world fs).2
  end.

Definition after_calls (config : ServerConfig) (calls : list call) (fs : Store)
    : Store :=
  foldl (λ fs c, after_call config c fs) fs calls.


(** A session of three calls: a backup, a listing, a second backup a second
    later. *)
Definition sample_session : list call :=
  [ BackupFlows (Some (js "first")) None (sample_world sample_time);
    ListBackups None;
    BackupFlows None (Some (js "nightly")) (sample_world (sample_time + 1000)%Z) ].

(** * Properties *)

(** ** Equality of strings *)

Lemma eqb_eq a b : JsString.eqb a b = true <-> a = b.
Proof. unfold JsString.eqb. apply bool_decide_eq_true. Qed.

Lemma eqb_refl a : JsString.eqb a a = true.
Proof. now apply eqb_eq. Qed.

Lemma eqb_neq a b : JsString.eqb a b = false <-> a <> b.
Proof. unfold JsString.eqb. apply bool_decide_eq_false. Qed.


(** ** The sort *)

Section Sorting.
Implicit Types (x y : Entry.t) (l : list Entry.t).

Lemma insert_newest_first_perm x l : insert_newest_first x l ≡ₚ x :: l.
Proof.
  induction l as [|y l IH]; simpl; [done|].
  destruct (Entry.timestamp y <=? Entry.timestamp x)%Z; [done|].
  rewrite IH. apply Permutation_swap.
Qed.

Lemma sort_newest_first_perm l : sort_newest_first l ≡ₚ l.
Proof.
  induction l as [|x l IH]; simpl; [done|].
  rewrite insert_newest_first_perm. by rewrite IH.
Qed.

Lemma sort_newest_first_length l : length (sort_newest_first l) = length l.
Proof. apply Permutation_length, sort_newest_first_perm. Qed.

Lemma insert_newest_first_sorted x l :
  StronglySorted not_older l → StronglySorted not_older (insert_newest_first x l).
Proof.
  induction 1 as [|y l Hl IH Hy]; simpl.
  - repeat constructor.
  - destruct (Z.leb_spec (Entry.timestamp y) (Entry.timestamp x)) as [Hle|Hlt].
    + constructor; [by constructor|].
      constructor; [done|].
      eapply Forall_impl; [exact Hy|].
      unfold not_older. intros z Hz. lia.
    + constructor; [done|].
      rewrite insert_newest_first_perm. constructor; [|done].
      unfold not_older. lia.
Qed.

Lemma sort_newest_first_sorted l : StronglySorted not_older (sort_newest_first l).
Proof.
  induction l as [|x l IH]; simpl; [constructor|].
  by apply insert_newest_first_sorted.
Qed.

(** With pairwise distinct timestamps, a newest-first list is strictly so. *)
Lemma sorted_distinct_strict l :
  StronglySorted not_older l → NoDup (Entry.timestamp <$> l) →
  StronglySorted newer l.
Proof.
  induction 1 as [|x l Hl IH Hx]; intros Hnd; [constructor|].
  rewrite fmap_cons in Hnd. apply NoDup_cons in Hnd as [Hx' Hnd].
  constructor; [by apply IH|].
  apply Forall_forall. intros y Hy.
  assert (not_older x y) as Hle by (rewrite Forall_forall in Hx; by apply Hx).
  unfold newer, not_older in *.
  destruct (decide (Entry.timestamp y = Entry.timestamp x)) as [Heq|]; [|lia].
  exfalso. apply Hx'. rewrite <- Heq. by apply list_elem_of_fmap_2.
Qed.

(** The entries cut off after the first [n] are no newer than any kept. *)
Lemma sorted_take_drop n l kept evicted :
  StronglySorted not_older l → kept ∈ take n l → evicted ∈ drop n l →
  not_older kept evicted.
Proof.
  intros Hs Hk He. rewrite <- (take_drop n l) in Hs.
  by eapply StronglySorted_app_1_elem_of.
Qed.

Lemma insert_made_at t x l :
  made_at t (insert_newest_first x l)
  = if (Entry.timestamp x =? t)%Z then x :: made_at t l else made_at t l.
Proof.
  unfold made_at. induction l as [|y l IH]; cbn [insert_newest_first List.filter].
  { done. }
  destruct (Z.leb_spec (Entry.timestamp y) (Entry.timestamp x)) as [Hle|Hlt].
  { done. }
  cbn [List.filter]. rewrite IH.
  destruct (Z.eqb_spec (Entry.timestamp x) t) as [Hx|Hx]; [|done].
  destruct (Z.eqb_spec (Entry.timestamp y) t) as [Hy|Hy]; [lia|done].
Qed.

(** The sort is stable: entries of one instant keep their order. *)
Lemma sort_made_at t l : made_at t (sort_newest_first l) = made_at t l.
Proof.
  induction l as [|x l IH]; [done|].
  cbn [sort_newest_first foldr]. fold (sort_newest_first l).
  rewrite insert_made_at, IH. done.
Qed.

End Sorting.

(** ** Initialization of the directory *)

Section Initialization.
Context (config : ServerConfig).

Lemma ensureBackupDirectory_eq fs :
  ensureBackupDirectory config fs = (inr (), initialized config fs).
Proof.
  unfold ensureBackupDirectory, initialized, init_dir, mbind, M_bind, mkdir,
    try_catch, access, writeFile, lookup_file.
  destruct fs as [dir|]; simpl.
  - by destruct (dir !! metadataFile).
  - by rewrite lookup_empty.
Qed.

Lemma init_dir_has_index dir : is_Some (init_dir config dir !! metadataFile).
Proof.
  unfold init_dir. destruct (dir !! metadataFile) eqn:E.
  - rewrite E. eauto.
  - rewrite lookup_insert_eq. eauto.
Qed.

Lemma init_dir_idemp dir :
  init_dir config (init_dir config dir) = init_dir config dir.
Proof.
  destruct (init_dir_has_index dir) as [f Hf].
  unfold init_dir at 1. by rewrite Hf.
Qed.

Lemma initialized_idemp fs :
  initialized config (initialized config fs) = initialized config fs.
Proof. unfold initialized. simpl. by rewrite init_dir_idemp. Qed.

Lemma initialized_existing dir :
  is_Some (dir !! metadataFile) → initialized config (Some dir) = Some dir.
Proof. intros [f Hf]. unfold initialized, init_dir. simpl. by rewrite Hf. Qed.

Lemma initialized_other_files fs path :
  path ≠ metadataFile → lookup_file path (initialized config fs) = lookup_file path fs.
Proof.
  intros Hne. unfold initialized, init_dir, lookup_file.
  destruct fs as [dir|]; simpl.
  - destruct (dir !! metadataFile); [done|]. by rewrite lookup_insert_ne.
  - rewrite lookup_empty. rewrite lookup_insert_ne by done. apply lookup_empty.
Qed.

Lemma initialized_index fs :
  lookup_file metadataFile (initialized config fs)
  = Some (default (initial_file config) (lookup_file metadataFile fs)).
Proof.
  unfold initialized, init_dir, lookup_file.
  destruct fs as [dir|]; simpl.
  - destruct (dir !! metadataFile) eqn:E; simpl; [done|]. by rewrite lookup_insert_eq.
  - rewrite lookup_empty. by rewrite lookup_insert_eq.
Qed.

Lemma initialized_of_index fs f :
  lookup_file metadataFile fs = Some f → initialized config fs = fs.
Proof.
  destruct fs as [dir|]; [|done]. simpl. intros Hf.
  apply initialized_existing. eauto.
Qed.

End Initialization.

(** ** The operations, step by step *)

Section Unfolding.
Context (config : ServerConfig).

Lemma readFile_eq path fs :
  readFile path fs =
    (match file_doc <$> lookup_file path fs with
     | Some doc => inr doc
     | None => inl NoEntry
     end, fs).
Proof. unfold readFile. by destruct (lookup_file path fs). Qed.

(** The integrity loop reads only. *)
Lemma check_file_frame backup acc fs : (check_file backup acc fs).2 = fs.
Proof.
  unfold check_file. destruct acc as [totalSize corruptedCount].
  unfold try_catch, mbind, M_bind, stat_size, lift.
  destruct (lookup_file (Entry.filename backup) fs) as [f|] eqn:E; [|done].
  rewrite readFile_eq, E. simpl.
  by destruct (doc_flows (file_doc f)).
Qed.

Lemma check_file_total backup acc fs : ∃ acc', check_file backup acc fs = (inr acc', fs).
Proof.
  unfold check_file. destruct acc as [totalSize corruptedCount].
  unfold try_catch, mbind, M_bind, stat_size, lift.
  destruct (lookup_file (Entry.filename backup) fs) as [f|] eqn:E; [|by eexists].
  rewrite readFile_eq, E. simpl.
  destruct (doc_flows (file_doc f)); by eexists.
Qed.

Lemma check_files_total backups acc fs :
  ∃ acc', check_files backups acc fs = (inr acc', fs).
Proof.
  revert acc. induction backups as [|b backups IH]; intros acc; simpl.
  - by eexists.
  - unfold mbind, M_bind.
    destruct (check_file_total b acc fs) as [acc' ->]. apply IH.
Qed.

(** Deleting evicted files cannot fail as a whole: each failure is
    swallowed. *)
Lemma unlink_each_total refused toDelete fs :
  ∃ fs', unlink_each refused toDelete fs = (inr (), fs')
         ∧ (is_Some fs → is_Some fs').
Proof.
  revert fs. induction toDelete as [|b rest IH]; intros fs; simpl.
  - by eexists.
  - unfold mbind, M_bind, try_catch, unlink.
    destruct (lookup_file (Entry.filename b) fs) eqn:E.
    + destruct (refused (Entry.filename b)).
      * simpl. destruct (IH fs) as (fs' & -> & Hs). by eexists.
      * destruct (IH (delete (Entry.filename b) <$> fs)) as (fs' & -> & Hs).
        eexists; split; [done|]. intros [d ->]. apply Hs. by eexists.
    + simpl. destruct (IH fs) as (fs' & -> & Hs). by eexists.
Qed.

End Unfolding.

(** ** Read-only operations *)

Section Frame.
Context (config : ServerConfig).

Lemma listBackups_eq detailed fs :
  listBackups detailed config fs =
    (match file_doc <$> lookup_file metadataFile (initialized config fs) with
     | Some doc =>
         match doc_backups doc with
         | inr backups =>
             inr (imap (view (default false detailed)) (sort_newest_first backups))
         | inl err => inl err
         end
     | None => inl NoEntry
     end, initialized config fs).
Proof.
  unfold listBackups, mbind at 1 2, M_bind.
  rewrite ensureBackupDirectory_eq, readFile_eq.
  destruct (file_doc <$> lookup_file metadataFile (initialized config fs))
    as [doc|]; [|done].
  unfold mbind, M_bind, lift. by destruct (doc_backups doc).
Qed.

Lemma getBackupFlows_eq backupName fs :
  getBackupFlows backupName config fs =
    (match file_doc <$> lookup_file (json_file backupName) (initialized config fs) with
     | Some (BackupDoc data) =>
         if verify (BackupData.flows data) (Meta.checksum (BackupData.metadata data))
         then inr data else inl ChecksumMismatch
     | Some _ => inl Undecodable
     | None => inl (BackupNotFound backupName)
     end, initialized config fs).
Proof.
  unfold getBackupFlows, mbind at 1, M_bind.
  rewrite ensureBackupDirectory_eq. unfold try_catch, mbind, M_bind, lift.
  rewrite readFile_eq.
  destruct (file_doc <$> lookup_file (json_file backupName) (initialized config fs))
    as [[i|data|version backups|flows|]|]; try done.
  cbn [doc_flows doc_snapshot]. by destruct (verify _ _).
Qed.

Lemma checkBackupHealth_frame world fs :
  (checkBackupHealth config world fs).2 = initialized config fs.
Proof.
  unfold checkBackupHealth, mbind at 1, M_bind.
  rewrite ensureBackupDirectory_eq. unfold try_catch, mbind at 1, M_bind.
  rewrite readFile_eq.
  destruct (file_doc <$> lookup_file metadataFile (initialized config fs))
    as [doc|]; [|done].
  unfold mbind at 1, M_bind, lift.
  destruct (doc_backups doc) as [err|backups]; [done|].
  destruct (length backups =? 0); [done|].
  unfold mbind, M_bind.
  destruct (check_files_total backups (0%N, 0) (initialized config fs))
    as [[totalSize corruptedCount] ->].
  by destruct (doc_index doc).
Qed.

(** C9.  Listing, fetching and the health check leave the directory as
    initialization leaves it: whatever the arguments, the store after the
    call is the initialized store.  Initialization is idempotent, touches
    no file other than the index, and keeps an index that is already
    there; it only adds an index without entries when there is none. *)
Theorem read_only_operations_frame (fs : Store) :
  (∀ detailed, (listBackups detailed config fs).2 = initialized config fs)
  ∧ (∀ backupName, (getBackupFlows backupName config fs).2 = initialized config fs)
  ∧ (∀ world, (checkBackupHealth config world fs).2 = initialized config fs)
  ∧ initialized config (initialized config fs) = initialized config fs
  ∧ (∀ path, path ≠ metadataFile →
       lookup_file path (initialized config fs) = lookup_file path fs)
  ∧ lookup_file metadataFile (initialized config fs)
    = Some (default (initial_file config) (lookup_file metadataFile fs))
  ∧ Index.backups (initialMetadata config) = [].
Proof.
  split_and!.
  - intros detailed. by rewrite listBackups_eq.
  - intros backupName. by rewrite getBackupFlows_eq.
  - intros world. apply checkBackupHealth_frame.
  - apply initialized_idemp.
  - intros path. apply initialized_other_files.
  - apply initialized_index.
  - done.
Qed.

End Frame.

(** ** Analysis of a payload *)

Section AnalysisFacts.

Lemma get_type_not_null e : e ≠ JNull → get_type e = inr (type_of e).
Proof. by destruct e. Qed.

Lemma is_string_true lit ty : is_string lit ty = true ↔ ty = Some (JStr lit).
Proof.
  destruct ty as [[]|]; simpl; try (split; [done|intros [=]]).
  rewrite eqb_eq. split; [by intros ->|by intros [= ->]].
Qed.

Lemma is_string_false lit ty : is_string lit ty = false ↔ ty ≠ Some (JStr lit).
Proof.
  rewrite <- is_string_true. destruct (is_string lit ty); split; congruence.
Qed.

Lemma is_tab_spec e : is_tab (type_of e) = true ↔ tab_element e.
Proof. apply is_string_true. Qed.

Lemma is_node_spec e : is_node (type_of e) = true ↔ node_element e.
Proof.
  unfold is_node, node_element.
  rewrite !andb_true_iff, !negb_true_iff, !is_string_false. tauto.
Qed.

(** On a sequence without [null], the throwing filter is the plain one
    and its length is the count. *)
Lemma filter_by_type_count pred (P : json → Prop) elems :
  (∀ e, pred (type_of e) = true ↔ P e) →
  Forall (λ e, e ≠ JNull) elems →
  ∃ kept, filter_by_type pred elems = inr kept ∧ count_where P elems (length kept).
Proof.
  intros Hpred. induction 1 as [|e elems He _ (kept & IH & Hcount)]; simpl.
  - eexists. split; [done|constructor].
  - rewrite (get_type_not_null e He), IH. simpl.
    destruct (pred (type_of e)) eqn:Hp.
    + eexists. split; [done|]. simpl. constructor; [by apply Hpred|done].
    + eexists. split; [done|]. apply count_miss; [|done].
      rewrite <- Hpred. congruence.
Qed.

Lemma count_where_functional P l n m :
  count_where P l n → count_where P l m → n = m.
Proof.
  intros Hn. revert m.
  induction Hn as [|e l n He Hn IH|e l n He Hn IH]; intros m Hm;
    inversion Hm; subst; try done; auto.
Qed.

Lemma utf8_encode_ascii s : ascii_only s → utf8_encode s = s.
Proof.
  induction 1 as [|c s Hc _ IH]; [done|]. simpl.
  assert (is_high_surrogate c = false) as ->
    by (unfold is_high_surrogate; apply andb_false_iff; left; apply N.leb_gt; lia).
  assert (is_low_surrogate c = false) as ->
    by (unfold is_low_surrogate; apply andb_false_iff; left; apply N.leb_gt; lia).
  unfold utf8_of_code_point.
  apply N.ltb_lt in Hc. rewrite Hc. simpl. by rewrite IH.
Qed.

Lemma byte_length_ascii s : ascii_only s → byte_length s = length s.
Proof. intros H. unfold byte_length. by rewrite utf8_encode_ascii. Qed.

Lemma analyzeFlows_array elems :
  Forall (λ e, e ≠ JNull) elems →
  ∃ tabs nodes,
    analyzeFlows (JArr elems)
    = inr (Analysis.mk (flows_checksum (JArr elems)) tabs nodes
             (length (stringify (JArr elems))))
    ∧ count_where tab_element elems tabs
    ∧ count_where node_element elems nodes.
Proof.
  intros Hnn. unfold analyzeFlows.
  destruct (filter_by_type_count is_tab tab_element elems is_tab_spec Hnn)
    as (tabs & -> & Htabs).
  destruct (filter_by_type_count is_node node_element elems is_node_spec Hnn)
    as (nodes & -> & Hnodes).
  by eexists _, _.
Qed.

(** C1.  A payload that is a sequence of records is analyzed, and
    checking it against the checksum of its own analysis succeeds:
    the digest is recomputed over the same serialization. *)
Theorem verify_analyzed_payload (elems : list json) :
  Forall (λ e, ∃ props, e = JObj props) elems →
  ∃ a, analyzeFlows (JArr elems) = inr a
       ∧ Sha256.hex (stringify (JArr elems)) = Analysis.checksum a
       ∧ verify (JArr elems) (Analysis.checksum a) = true.
Proof.
  intros Hrec.
  destruct (analyzeFlows_array elems) as (tabs & nodes & -> & _).
  { eapply Forall_impl; [exact Hrec|]. by intros e [props ->]. }
  eexists. split; [done|]. split; [done|]. apply eqb_refl.
Qed.

Lemma verify_analyzed_payload_witness :
  ∃ a, analyzeFlows (JArr two_flow_records) = inr a
       ∧ Sha256.hex (stringify (JArr two_flow_records)) = Analysis.checksum a
       ∧ verify (JArr two_flow_records) (Analysis.checksum a) = true.
Proof.
  apply (verify_analyzed_payload two_flow_records).
  repeat constructor; by eexists.
Defined.

(** C5, as stated, fails on the code in three places.  An element whose
    [type] is the empty string has a type that is present and differs from
    both discriminators, yet it is not counted.  A payload with a
    character outside ASCII has a [size] below the byte length of its
    serialization.  A sequence with a [null] element is not analyzed at
    all. *)
Lemma analyzeFlows_counts_counterexample :
  (∃ a, analyzeFlows (JArr [untyped_record]) = inr a
        ∧ count_where node_element_as_specified [untyped_record] 1
        ∧ Analysis.nodesCount a = 0)
  ∧ (∃ a, analyzeFlows (JArr [accented_tab]) = inr a
          ∧ Analysis.size a = 28
          ∧ byte_length (stringify (JArr [accented_tab])) = 29)
  ∧ analyzeFlows (JArr [JNull]) = inl ElementTypeError.
Proof.
  split_and!.
  - eexists. split; [vm_compute; reflexivity|]. split; [|done].
    apply count_hit; [|constructor].
    exists (JStr []). by split_and!.
  - eexists. split; [vm_compute; reflexivity|]. by split; vm_compute.
  - done.
Qed.

(** C5, amended.  For a sequence without [null] elements, [flowsCount] is
    the number of elements whose [type] is the tab discriminator,
    [nodesCount] the number of elements whose [type] is truthy and is
    neither the tab nor the subflow discriminator, and [size] is the byte
    length of the serialization whenever that serialization is ASCII
    only.  A payload that is not a sequence is refused as invalid. *)
Theorem analyzeFlows_counts :
  (∀ elems, Forall (λ e, e ≠ JNull) elems →
     ∃ a, analyzeFlows (JArr elems) = inr a
          ∧ count_where tab_element elems (Analysis.flowsCount a)
          ∧ count_where node_element elems (Analysis.nodesCount a)
          ∧ (ascii_only (stringify (JArr elems)) →
             Analysis.size a = byte_length (stringify (JArr elems))))
  ∧ (∀ flows, (∀ elems, flows ≠ JArr elems) →
       analyzeFlows flows = inl InvalidFlows
       ∧ failure_of InvalidFlows = InvalidPayload).
Proof.
  split.
  - intros elems Hnn.
    destruct (analyzeFlows_array elems Hnn) as (tabs & nodes & -> & Htabs & Hnodes).
    eexists. split; [done|]. simpl. split_and!; [done..|].
    intros Hascii. by rewrite byte_length_ascii.
  - intros flows Hna. split; [|done].
    destruct flows; try done. by destruct (Hna elems).
Qed.

Lemma analyzeFlows_counts_witness :
  Forall (λ e, e ≠ JNull) two_flow_records
  ∧ ascii_only (stringify (JArr two_flow_records))
  ∧ (∃ a, analyzeFlows (JArr two_flow_records) = inr a
          ∧ count_where tab_element two_flow_records (Analysis.flowsCount a)
          ∧ count_where node_element two_flow_records (Analysis.nodesCount a)
          ∧ Analysis.size a = byte_length (stringify (JArr two_flow_records)))
  ∧ analyzeFlows (JStr (js "flows")) = inl InvalidFlows.
Proof.
  assert (Forall (λ e, e ≠ JNull) two_flow_records) as Hnn
    by (repeat constructor; discriminate).
  assert (ascii_only (stringify (JArr two_flow_records))) as Hascii
    by (vm_compute; repeat constructor).
  split_and!; [done..| |].
  - destruct (proj1 analyzeFlows_counts two_flow_records Hnn)
      as (a & Ha & Htabs & Hnodes & Hsize).
    exists a. split_and!; [done..|]. by apply Hsize.
  - apply (proj2 analyzeFlows_counts). intros elems. discriminate.
Defined.

End AnalysisFacts.

(** ** Backup names *)

Section Names.
Local Open Scope N_scope.






Lemma createBackupName_generates timestamp name :
  name = None ∨ name = Some [] →
  createBackupName name timestamp
  = inr (js "backup_"
         ++ substring0 15 (replace_first 84 95 (strip_date_separators timestamp))).
Proof. by intros [->| ->]. Qed.

End Names.

(** ** Creation, step by step *)

Section Creation.
Context (config : ServerConfig).

Lemma auto_cleanup_eq refused cfg pushed fs :
  ∃ fs', auto_cleanup refused cfg pushed fs = (inr (kept_backups cfg pushed), fs')
         ∧ (is_Some fs → is_Some fs').
Proof.
  unfold auto_cleanup, kept_backups.
  destruct (Index.autoCleanup cfg && (Index.maxBackups cfg <? length pushed)).
  - unfold mbind, M_bind.
    destruct (unlink_each_total refused
                (drop (Index.maxBackups cfg) (sort_newest_first pushed)) fs)
      as (fs' & -> & Hs).
    by eexists.
  - by eexists.
Qed.

Lemma createBackup_steps name reason world fs :
  createBackup name reason config world fs =
    match nodeRedFlows world with
    | inl e => (inl e, initialized config fs)
    | inr flows =>
        match createBackupName name (toISOString (now world)) with
        | inl e => (inl e, initialized config fs)
        | inr backupName =>
            match analyzeFlows flows with
            | inl e => (inl e, initialized config fs)
            | inr analysis =>
                match file_doc <$> lookup_file metadataFile (initialized config fs) with
                | Some (IndexDoc metadata) =>
                    if existsb (λ b, JsString.eqb (Entry.name b) backupName)
                         (Index.backups metadata)
                    then (inl (AlreadyExists backupName), initialized config fs)
                    else persist_backup (undeletable world) metadata
                           (created_meta backupName world reason analysis) flows
                           (initialized config fs)
                | Some (ConfiglessIndexDoc version backups) =>
                    if existsb (λ b, JsString.eqb (Entry.name b) backupName) backups
                    then (inl (AlreadyExists backupName), initialized config fs)
                    else (inl Undecodable,
                          with_snapshot
                            (created_meta backupName world reason analysis) flows
                            (initialized config fs))
                | Some _ => (inl Undecodable, initialized config fs)
                | None => (inl NoEntry, initialized config fs)
                end
            end
        end
    end.
Proof.
  unfold createBackup, mbind at 1, M_bind.
  rewrite ensureBackupDirectory_eq.
  unfold mbind at 1, M_bind, lift.
  destruct (nodeRedFlows world) as [e|flows]; [done|].
  unfold mbind at 1, M_bind.
  destruct (createBackupName name (toISOString (now world))) as [e|backupName]; [done|].
  unfold mbind at 1, M_bind.
  destruct (analyzeFlows flows) as [e|analysis]; [done|].
  unfold mbind at 1, M_bind. rewrite readFile_eq.
  destruct (file_doc <$> lookup_file metadataFile (initialized config fs))
    as [[metadata|data|version backups|flows'|]|]; try done.
  - unfold mbind at 1, M_bind. cbn [doc_backups].
    by destruct (existsb _ _).
  - unfold mbind at 1, M_bind. cbn [doc_backups].
    by destruct (existsb _ _).
Qed.

(** Persisting always completes, whether or not the evicted files can be
    deleted, and leaves the pruned index on disk. *)
Lemma persist_backup_eq refused metadata md flows dir :
  ∃ fs', persist_backup refused metadata md flows (Some dir) = (inr md, fs')
    ∧ file_doc <$> lookup_file metadataFile fs'
      = Some (IndexDoc
                (Index.mk (Index.version metadata) (Index.config metadata)
                   (kept_backups (Index.config metadata)
                      (Index.backups metadata
                       ++ [Entry.mk md (json_file (Meta.name md))])))).
Proof.
  unfold persist_backup, mbind at 1, M_bind, writeFile at 1.
  unfold mbind at 1, M_bind.
  match goal with
  | |- context [auto_cleanup ?r ?c ?p ?s] =>
      destruct (auto_cleanup_eq r c p s) as (fs' & -> & Hs)
  end.
  destruct Hs as [dir' ->]; [by eexists|].
  unfold mbind, M_bind, writeFile.
  eexists. split; [done|].
  unfold lookup_file. simpl. by rewrite lookup_insert_eq.
Qed.

Lemma kept_backups_spec cfg pushed :
  Index.autoCleanup cfg = true →
  length (kept_backups cfg pushed) ≤ Index.maxBackups cfg
  ∧ (Index.maxBackups cfg < length pushed →
     length (kept_backups cfg pushed) = Index.maxBackups cfg
     ∧ ∃ evicted,
         pushed ≡ₚ kept_backups cfg pushed ++ evicted
         ∧ ∀ k e, k ∈ kept_backups cfg pushed → e ∈ evicted → not_older k e)
  ∧ (length pushed ≤ Index.maxBackups cfg → kept_backups cfg pushed = pushed).
Proof.
  intros Hauto. unfold kept_backups. rewrite Hauto. simpl.
  destruct (Nat.ltb_spec (Index.maxBackups cfg) (length pushed)) as [Hlt|Hge].
  - assert (length (take (Index.maxBackups cfg) (sort_newest_first pushed))
            = Index.maxBackups cfg) as Hlen.
    { rewrite length_take, sort_newest_first_length. lia. }
    split_and!; [lia| |lia].
    intros _. split; [done|].
    exists (drop (Index.maxBackups cfg) (sort_newest_first pushed)). split.
    + by rewrite take_drop, sort_newest_first_perm.
    + intros k e Hk He.
      eapply sorted_take_drop; [apply sort_newest_first_sorted|done..].
  - split_and!; [done|lia|done].
Qed.

(** C2.  Take any create that completes; let [old] be the index it
    read and [new] the index on disk afterwards.  The configuration is
    carried over, and when auto-cleanup is on, [new] holds at most
    [maxBackups] entries.  When the list with the new entry pushed exceeds
    the capacity, exactly [maxBackups] entries are kept and every kept
    entry is at least as recent as every evicted one; otherwise nothing
    is evicted.  Conversely, once the flows are fetched and analyzed and
    the name is accepted and unused, the create completes in every store:
    nothing is assumed of the files of the evicted entries, whose
    deletion may fail. *)
Theorem createBackup_capacity name reason world fs :
  (∀ md fs',
     createBackup name reason config world fs = (inr md, fs') →
     ∃ old new,
       file_doc <$> lookup_file metadataFile (initialized config fs)
         = Some (IndexDoc old)
       ∧ file_doc <$> lookup_file metadataFile fs' = Some (IndexDoc new)
       ∧ Index.config new = Index.config old
       ∧ (Index.autoCleanup (Index.config old) = true →
          let capacity := Index.maxBackups (Index.config old) in
          let pushed :=
            Index.backups old ++ [Entry.mk md (json_file (Meta.name md))] in
          length (Index.backups new) ≤ capacity
          ∧ (capacity < length pushed →
             length (Index.backups new) = capacity
             ∧ ∃ evicted,
                 pushed ≡ₚ Index.backups new ++ evicted
                 ∧ ∀ k e, k ∈ Index.backups new → e ∈ evicted → not_older k e)
          ∧ (length pushed ≤ capacity → Index.backups new = pushed)))
  ∧ (∀ flows backupName analysis old,
       nodeRedFlows world = inr flows →
       createBackupName name (toISOString (now world)) = inr backupName →
       analyzeFlows flows = inr analysis →
       file_doc <$> lookup_file metadataFile (initialized config fs)
         = Some (IndexDoc old) →
       existsb (λ b, JsString.eqb (Entry.name b) backupName) (Index.backups old)
         = false →
       ∃ fs', createBackup name reason config world fs
              = (inr (created_meta backupName world reason analysis), fs')).
Proof.
  split.
  - intros md fs'. rewrite createBackup_steps.
    destruct (nodeRedFlows world) as [e|flows]; [done|].
    destruct (createBackupName _ _) as [e|backupName]; [done|].
    destruct (analyzeFlows flows) as [e|analysis]; [done|].
    destruct (file_doc <$> lookup_file metadataFile (initialized config fs))
      as [[old|data|version backups|flows'|]|] eqn:Hold; try done;
      [|by destruct (existsb _ _)].
    destruct (existsb _ _); [done|].
    unfold initialized at 1.
    destruct (persist_backup_eq (undeletable world) old
                (created_meta backupName world reason analysis) flows
                (init_dir config (default ∅ fs))) as (fs'' & -> & Hnew).
    intros [= <- <-].
    eexists old, _. split; [done|]. split; [exact Hnew|]. split; [done|].
    intros Hauto. simpl. by apply kept_backups_spec.
  - intros flows backupName analysis old Hflows Hname Hanalysis Hold Hfresh.
    rewrite createBackup_steps, Hflows, Hname, Hanalysis, Hold, Hfresh.
    unfold initialized.
    destruct (persist_backup_eq (undeletable world) old
                (created_meta backupName world reason analysis) flows
                (init_dir config (default ∅ fs))) as (fs' & -> & _).
    by eexists.
Qed.

End Creation.

Lemma createBackup_capacity_witness :
  ∃ md fs' new,
    createBackup (Some (js "c")) None sample_config (sample_world sample_time)
      index_only_store = (inr md, fs')
    ∧ file_doc <$> lookup_file metadataFile fs' = Some (IndexDoc new)
    ∧ length (Index.backups new) = 2
    ∧ lookup_file (json_file (js "a")) index_only_store = None.
Proof.
  destruct (createBackup_capacity sample_config (Some (js "c")) None
              (sample_world sample_time) index_only_store) as [Hbound Hcompletes].
  edestruct Hcompletes as [fs' Hc]; [reflexivity..|].
  destruct (Hbound _ _ Hc) as (old & new & Hold & Hnew & Hcfg & Hcap).
  vm_compute in Hold. injection Hold as <-.
  destruct (Hcap eq_refl) as (_ & Hpruned & _).
  destruct Hpruned as [Hlen _]; [rewrite length_app; simpl; lia|].
  eexists _, fs', new. split; [exact Hc|]. split; [exact Hnew|].
  split; [exact Hlen|]. reflexivity.
Defined.

(** The scenario of the specification: with a capacity of three, five
    creations leave the three most recent entries, and the files of the two
    oldest are gone. *)
Example five_backups_keep_three :
  index_names five_backups = Some [js "b5"; js "b4"; js "b3"]
  ∧ has_file (json_file (js "b1")) five_backups = false
  ∧ has_file (json_file (js "b2")) five_backups = false
  ∧ has_file (json_file (js "b3")) five_backups = true
  ∧ has_file (json_file (js "b5")) five_backups = true.
Proof. by vm_compute. Qed.

(** ** Refused creations *)

Section Refusals.
Context (config : ServerConfig).

Lemma lookup_doc_is_file path fs doc :
  file_doc <$> lookup_file path fs = Some doc →
  ∃ f, lookup_file path fs = Some f.
Proof. destruct (lookup_file path fs); [eauto|done]. Qed.

Lemma accepted_name name timestamp :
  name_pattern name = true → includes reserved_names (toLowerCase name) = false →
  createBackupName (Some name) timestamp = inr name.
Proof.
  intros Hp Hr. destruct name as [|c s]; [done|].
  unfold createBackupName. by rewrite Hp, Hr.
Qed.

(** C4.  In an archive whose index lists an entry named [N], creating
    a backup named [N] fails and leaves the directory exactly as it was:
    no snapshot file is written and the index is not touched, so fetching
    [N] and listing give what they gave before.  When the flows were
    fetched and analyzed, the failure is the duplicate-name one. *)
Theorem duplicate_name_rejected (N : jsstring) reason world fs index e :
  file_doc <$> lookup_file metadataFile fs = Some (IndexDoc index) →
  e ∈ Index.backups index → Entry.name e = N →
  name_pattern N = true → includes reserved_names (toLowerCase N) = false →
  ∃ err,
    createBackup (Some N) reason config world fs = (inl err, fs)
    ∧ (∀ flows analysis,
         nodeRedFlows world = inr flows → analyzeFlows flows = inr analysis →
         err = AlreadyExists N ∧ failure_of err = DuplicateName)
    ∧ getBackupFlows N config (createBackup (Some N) reason config world fs).2
      = getBackupFlows N config fs
    ∧ ∀ detailed,
        listBackups detailed config (createBackup (Some N) reason config world fs).2
        = listBackups detailed config fs.
Proof.
  intros Hindex He HN Hp Hr.
  destruct (lookup_doc_is_file _ _ _ Hindex) as [f Hf].
  assert (∃ err,
    createBackup (Some N) reason config world fs = (inl err, fs)
    ∧ (∀ flows analysis,
         nodeRedFlows world = inr flows → analyzeFlows flows = inr analysis →
         err = AlreadyExists N ∧ failure_of err = DuplicateName))
    as (err & Hcreate & Herr).
  { rewrite createBackup_steps, (initialized_of_index config fs f Hf).
    rewrite (accepted_name N _ Hp Hr), Hindex.
    assert (existsb (λ b, JsString.eqb (Entry.name b) N) (Index.backups index) = true)
      as ->.
    { apply existsb_exists. exists e. split; [by apply list_elem_of_In|].
      by apply eqb_eq. }
    destruct (nodeRedFlows world) as [e1|flows].
    { eexists. split; [done|]. by intros flows analysis [=]. }
    destruct (analyzeFlows flows) as [e2|analysis] eqn:Ha.
    { eexists. split; [done|]. intros flows' analysis' [= <-]. congruence. }
    eexists. split; [done|]. done. }
  exists err. rewrite Hcreate. done.
Qed.



End Refusals.

Lemma duplicate_name_rejected_witness :
  ∃ err,
    createBackup (Some (js "daily")) None sample_config
      (sample_world (sample_time + 60000)%Z) daily_store = (inl err, daily_store)
    ∧ err = AlreadyExists (js "daily").
Proof.
  destruct (duplicate_name_rejected sample_config (js "daily") None
              (sample_world (sample_time + 60000)%Z) daily_store
              (Index.mk (js "1.0") (Index.mk_config 2 true)
                 [sample_entry "daily" sample_time])
              (sample_entry "daily" sample_time))
    as (err & Hcreate & Herr & _).
  - vm_compute. reflexivity.
  - constructor.
  - reflexivity.
  - reflexivity.
  - reflexivity.
  - exists err. split; [exact Hcreate|].
    by destruct (Herr sample_flows _ eq_refl eq_refl).
Defined.


(** ** Integrity check on fetch, and listing *)

Section Reading.
Context (config : ServerConfig).

Lemma view_timestamps detailed l :
  BackupView.timestamp <$> imap (view detailed) l = Entry.timestamp <$> l.
Proof.
  apply list_eq. intros i.
  rewrite !list_lookup_fmap, list_lookup_imap.
  by destruct (l !! i).
Qed.

Lemma view_names detailed l :
  BackupView.name <$> imap (view detailed) l = Entry.name <$> l.
Proof.
  apply list_eq. intros i.
  rewrite !list_lookup_fmap, list_lookup_imap.
  by destruct (l !! i).
Qed.

Lemma views_show detailed l : Forall2 (shows detailed) l (imap (view detailed) l).
Proof.
  apply Forall2_same_length_lookup. split; [by rewrite length_imap|].
  intros i e v He. rewrite list_lookup_imap, He. intros [= <-].
  unfold shows, view. simpl. by destruct detailed.
Qed.

(** C3.  A snapshot file still decodes, its recorded checksum is the one
    of the original payload, and the payload it now holds has another
    digest.  Fetching it fails with the checksum mismatch, classed as
    corruption.  Listing the same archive succeeds and shows the entry:
    it reads the index only. *)
Theorem altered_snapshot_detected (name : jsstring) md original altered f
    index e detailed fs :
  Meta.checksum md = flows_checksum original →
  lookup_file (json_file name) fs = Some f →
  file_doc f = BackupDoc (BackupData.mk md altered) →
  flows_checksum altered ≠ flows_checksum original →
  file_doc <$> lookup_file metadataFile fs = Some (IndexDoc index) →
  e ∈ Index.backups index → Entry.name e = name →
  (getBackupFlows name config fs).1 = inl ChecksumMismatch
  ∧ failure_of ChecksumMismatch = Corrupted
  ∧ ∃ views, (listBackups detailed config fs).1 = inr views
             ∧ ∃ v, v ∈ views ∧ BackupView.name v = name.
Proof.
  intros Hsum Hf Hdoc Hdiff Hindex He Hname.
  destruct (lookup_doc_is_file _ _ _ Hindex) as [fi Hfi].
  split_and!; [|done|].
  - rewrite getBackupFlows_eq, (initialized_of_index config fs fi Hfi), Hf.
    simpl. rewrite Hdoc. simpl. unfold verify. rewrite Hsum.
    by apply eqb_neq in Hdiff as ->.
  - rewrite listBackups_eq, (initialized_of_index config fs fi Hfi), Hindex.
    eexists. split; [done|].
    rewrite <- sort_newest_first_perm in He.
    apply list_elem_of_lookup in He as [i Hi].
    exists (view (default false detailed) i e). split; [|done].
    apply list_elem_of_lookup. exists i.
    by rewrite list_lookup_imap, Hi.
Qed.

Lemma imap_listed_at {f : nat → Entry.t → BackupView.t} t l :
  (∀ i e, BackupView.name (f i e) = Entry.name e
          ∧ BackupView.timestamp (f i e) = Entry.timestamp e) →
  listed_at t (imap f l) = Entry.name <$> made_at t l.
Proof.
  unfold listed_at, made_at. revert f.
  induction l as [|e l IH]; intros f Hf; [done|].
  cbn [imap List.filter]. destruct (Hf 0 e) as [Hname Htime].
  rewrite Htime. specialize (IH (f ∘ S) (λ i, Hf (S i))).
  destruct (Entry.timestamp e =? t)%Z; cbn [fmap list_fmap]; by rewrite ?Hname, IH.
Qed.

(** C8, amended.  When the index is readable, listing returns one view
    per entry, newest first; the order is strict when the timestamps are
    pairwise distinct, and entries of one and the same timestamp are all
    returned, in the order the index holds them.  The view at position 0,
    and no other, is flagged latest.
    Each view carries the size and the counts exactly when [detailed] is
    true.  The directory, and with it the index document, is what it
    was. *)
Theorem listBackups_views detailed fs index :
  file_doc <$> lookup_file metadataFile fs = Some (IndexDoc index) →
  ∃ sorted views,
    listBackups detailed config fs = (inr views, fs)
    ∧ sorted ≡ₚ Index.backups index
    ∧ Forall2 (shows (default false detailed)) sorted views
    ∧ StronglySorted Z.ge (BackupView.timestamp <$> views)
    ∧ (NoDup (Entry.timestamp <$> Index.backups index) →
       StronglySorted Z.gt (BackupView.timestamp <$> views))
    ∧ (∀ i v, views !! i = Some v → BackupView.isLatest v = true ↔ i = 0)
    ∧ file_doc <$> lookup_file metadataFile fs = Some (IndexDoc index)
    ∧ (∀ t, made_at t sorted = made_at t (Index.backups index))
    ∧ (∀ t, listed_at t views = Entry.name <$> made_at t (Index.backups index)).
Proof.
  intros Hindex.
  destruct (lookup_doc_is_file _ _ _ Hindex) as [fi Hfi].
  exists (sort_newest_first (Index.backups index)). eexists.
  rewrite listBackups_eq, (initialized_of_index config fs fi Hfi), Hindex.
  split_and!; [done| | | | | |done| |].
  - apply sort_newest_first_perm.
  - apply views_show.
  - rewrite view_timestamps.
    eapply StronglySorted_fmap; [|apply sort_newest_first_sorted].
    unfold not_older. intros x y. lia.
  - intros Hnd. rewrite view_timestamps.
    eapply StronglySorted_fmap;
      [|apply sorted_distinct_strict; [apply sort_newest_first_sorted|]].
    + unfold newer. intros x y. lia.
    + by rewrite sort_newest_first_perm.
  - intros i v. rewrite list_lookup_imap_Some. intros (e & _ & ->).
    simpl. rewrite Nat.eqb_eq. done.
  - intros t. apply sort_made_at.
  - intros t. rewrite imap_listed_at by done. by rewrite sort_made_at.
Qed.

End Reading.

Lemma altered_snapshot_detected_witness :
  (getBackupFlows (js "daily") sample_config altered_store).1 = inl ChecksumMismatch
  ∧ ∃ views, (listBackups None sample_config altered_store).1 = inr views
             ∧ ∃ v, v ∈ views ∧ BackupView.name v = js "daily".
Proof.
  destruct (altered_snapshot_detected sample_config (js "daily")
              (Entry.meta (sample_entry "daily" sample_time))
              sample_flows altered_flows altered_file
              (Index.mk (js "1.0") (Index.mk_config 2 true)
                 [sample_entry "daily" sample_time])
              (sample_entry "daily" sample_time) None altered_store)
    as (Hfetch & _ & Hlist).
  - reflexivity.
  - vm_compute. reflexivity.
  - reflexivity.
  - vm_compute. discriminate.
  - vm_compute. reflexivity.
  - constructor.
  - reflexivity.
  - split; [exact Hfetch|exact Hlist].
Defined.

(** C8, as stated, fails on an index with two entries of one and the same
    timestamp: both are returned, one after the other, so the order is not
    strictly descending. *)
Lemma listBackups_views_counterexample :
  ∃ v1 v2,
    (listBackups None sample_config twin_store).1 = inr [v1; v2]
    ∧ BackupView.name v1 = js "a" ∧ BackupView.name v2 = js "b"
    ∧ ¬ (BackupView.timestamp v1 > BackupView.timestamp v2)%Z.
Proof.
  eexists _, _. split; [vm_compute; reflexivity|]. simpl.
  split; [done|]. split; [done|]. lia.
Qed.

Lemma listBackups_views_witness :
  ∃ views,
    listBackups (Some true) sample_config index_only_store
    = (inr views, index_only_store)
    ∧ StronglySorted Z.gt (BackupView.timestamp <$> views).
Proof.
  destruct (listBackups_views sample_config (Some true) index_only_store
              (Index.mk (js "1.0") (Index.mk_config 2 true)
                 [ sample_entry "a" (sample_time - 2000)%Z;
                   sample_entry "b" (sample_time - 1000)%Z ]))
    as (sorted & views & Hlist & _ & _ & _ & Hstrict & _).
  - reflexivity.
  - exists views. split; [exact Hlist|].
    apply Hstrict. vm_compute.
    apply NoDup_cons. split; [|apply NoDup_singleton].
    rewrite list_elem_of_singleton. discriminate.
Defined.

(** ** The health report *)

Section HealthFacts.
Context (config : ServerConfig).

Lemma elem_of_if_singleton {A} (b : bool) (x y : A) :
  y ∈ (if b then [x] else []) ↔ b = true ∧ y = x.
Proof.
  destruct b; [rewrite list_elem_of_singleton|rewrite elem_of_nil];
    split; try done; by intros [? ?].
Qed.

Lemma sort_newest_first_head l :
  l ≠ [] →
  ∃ newest, head (sort_newest_first l) = Some newest
            ∧ newest ∈ l ∧ ∀ e, e ∈ l → not_older newest e.
Proof.
  intros Hne.
  pose proof (sort_newest_first_perm l) as Hperm.
  pose proof (sort_newest_first_sorted l) as Hsorted.
  destruct (sort_newest_first l) as [|newest rest].
  { apply Permutation_nil_l in Hperm. by subst. }
  exists newest. split; [done|]. split.
  - rewrite <- Hperm. by left.
  - intros e. rewrite <- Hperm. apply StronglySorted_inv in Hsorted as [_ Hall].
    rewrite elem_of_cons. intros [->|He].
    + unfold not_older. lia.
    + rewrite Forall_forall in Hall. by apply Hall.
Qed.

(** The report on a non-empty archive with a readable index.  The age
    is in minutes, and it is the age in minutes that is compared with 24.
    Only corrupted files make the report unhealthy. *)
Lemma health_report_nonempty world fs index :
  file_doc <$> lookup_file metadataFile fs = Some (IndexDoc index) →
  Index.backups index ≠ [] →
  ∃ h newest,
    (checkBackupHealth config world fs).1 = inr h
    ∧ newest ∈ Index.backups index
    ∧ (∀ e, e ∈ Index.backups index → not_older newest e)
    ∧ Health.latestAge h
      = Some (round_minutes (now world - Entry.timestamp newest))
    ∧ ((LatestBackupOld ∈ Health.issues h)
       ↔ (24 < round_minutes (now world - Entry.timestamp newest))%Z)
    ∧ ((Health.healthy h = false)
       ↔ (∃ n, 0 < n ∧ CorruptedBackups n ∈ Health.issues h))
    ∧ (InitializationFailed ∉ Health.issues h)
    ∧ (NoBackupsFound ∉ Health.issues h).
Proof.
  intros Hindex Hne.
  destruct (lookup_doc_is_file _ _ _ Hindex) as [fi Hfi].
  destruct (sort_newest_first_head _ Hne) as (newest & Hhead & Hin & Hnewest).
  unfold checkBackupHealth, mbind at 1, M_bind.
  rewrite ensureBackupDirectory_eq, (initialized_of_index config fs fi Hfi).
  unfold try_catch, mbind at 1, M_bind. rewrite readFile_eq, Hindex.
  unfold mbind at 1, M_bind, lift. cbn [doc_backups doc_index].
  destruct (Nat.eqb_spec (length (Index.backups index)) 0) as [Hlen|_].
  { by destruct (Index.backups index). }
  unfold mbind, M_bind.
  destruct (check_files_total (Index.backups index) (0%N, 0) fs)
    as [[totalSize corruptedCount] ->].
  rewrite Hhead. simpl.
  eexists _, newest. split; [done|]. simpl.
  rewrite !elem_of_app, !elem_of_if_singleton.
  split_and!; [done..| | | |].
  - assert (latest_is_old
              (Some (round_minutes (now world - Entry.timestamp newest))) = true
            ↔ (24 < round_minutes (now world - Entry.timestamp newest))%Z) as <-.
    { unfold latest_is_old.
      rewrite andb_true_iff, negb_true_iff, Z.eqb_neq, Z.ltb_lt. lia. }
    split; [|by auto].
    by intros [[_ [=]]|[[Hold _]|[[_ [=]]|[_ [=]]]]].
  - rewrite negb_false_iff. split.
    + intros Hc. exists corruptedCount. split; [by apply Nat.ltb_lt|].
      rewrite !elem_of_app, !elem_of_if_singleton. by auto.
    + intros (n & _ & Hmem).
      rewrite !elem_of_app, !elem_of_if_singleton in Hmem.
      by destruct Hmem as [[Hc _]|[[_ [=]]|[[_ [=]]|[_ [=]]]]].
  - by intros [[_ [=]]|[[_ [=]]|[[_ [=]]|[_ [=]]]]].
  - by intros [[_ [=]]|[[_ [=]]|[[_ [=]]|[_ [=]]]]].
Qed.

End HealthFacts.

(** C6, at an input where the code departs from it.  One intact backup,
    made half an hour before the check, in an archive with room to spare.
    The report is healthy and the age is 30 minutes, far below 24 hours, yet
    the advisory that the latest backup is over 24 hours old is issued: the
    age in minutes is compared with the number 24. *)
Theorem health_flags_half_hour_old_backup :
  ∃ h,
    (checkBackupHealth sample_config (sample_world (sample_time + 30 * 60000)%Z)
       daily_store).1 = inr h
    ∧ Health.count h = 1
    ∧ Health.latestAge h = Some 30%Z
    ∧ Health.healthy h = true
    ∧ Health.issues h = [LatestBackupOld].
Proof. eexists. split; [vm_compute; reflexivity|]. done. Qed.

(** ** Generated names *)

Section GeneratedNames.
Local Open Scope N_scope.

Lemma digit_unit_is_digit d : is_digit (digit_unit d) = true.
Proof.
  unfold is_digit, digit_unit.
  pose proof (N.mod_lt d 10 ltac:(done)) as Hlt.
  generalize dependent (d mod 10). intros r Hlt.
  apply andb_true_iff. split; apply N.leb_le; lia.
Qed.

Lemma padded_digits k n : digits (padded k n).
Proof.
  revert n. induction k as [|k IH]; intros n; simpl; [constructor|].
  apply Forall_app. split; [apply IH|].
  constructor; [apply digit_unit_is_digit|constructor].
Qed.

Lemma padded_length k n : length (padded k n) = k.
Proof.
  revert n. induction k as [|k IH]; intros n; simpl; [done|].
  rewrite length_app, IH. simpl. lia.
Qed.

Lemma digit_facts c :
  is_digit c = true →
  is_date_separator c = false ∧ (c =? 84) = false ∧ name_unit c = true.
Proof.
  unfold is_digit, is_date_separator, name_unit.
  intros [H1 H2]%andb_true_iff. apply N.leb_le in H1, H2.
  split_and!.
  - rewrite !orb_false_iff, !N.eqb_neq. lia.
  - apply N.eqb_neq. lia.
  - unfold is_digit. rewrite !orb_true_iff, andb_true_iff, !N.leb_le. tauto.
Qed.

Lemma strip_digits s : digits s → strip_date_separators s = s.
Proof.
  induction 1 as [|c s Hc _ IH]; [done|].
  unfold strip_date_separators in *. simpl.
  destruct (digit_facts c Hc) as (-> & _ & _). simpl. by rewrite IH.
Qed.

Lemma strip_padded k n : strip_date_separators (padded k n) = padded k n.
Proof. apply strip_digits, padded_digits. Qed.

Lemma strip_app s r :
  strip_date_separators (s ++ r)
  = strip_date_separators s ++ strip_date_separators r.
Proof. apply List.filter_app. Qed.

Lemma replace_first_digits s r :
  digits s → replace_first 84 95 (s ++ r) = s ++ replace_first 84 95 r.
Proof.
  induction 1 as [|c s Hc _ IH]; [done|]. simpl.
  destruct (digit_facts c Hc) as (_ & -> & _). by rewrite IH.
Qed.

Lemma replace_first_here r : replace_first 84 95 ([84] ++ r) = [95] ++ r.
Proof. done. Qed.

Lemma digits_name_units s : digits s → forallb name_unit s = true.
Proof.
  induction 1 as [|c s Hc _ IH]; [done|]. simpl.
  destruct (digit_facts c Hc) as (_ & _ & ->). by rewrite IH.
Qed.

Lemma eqb_length_ne (a b : jsstring) :
  length a ≠ length b → JsString.eqb a b = false.
Proof. intros Hlen. apply eqb_neq. congruence. Qed.

Lemma date_digits_facts t : digits (date_digits t) ∧ length (date_digits t) = 8%nat.
Proof.
  unfold date_digits. destruct (civil_from_days _) as [[y m] d].
  split.
  - apply Forall_app; split; [apply padded_digits|].
    apply Forall_app; split; apply padded_digits.
  - by rewrite !length_app, !padded_length.
Qed.

Lemma time_digits_facts t : digits (time_digits t) ∧ length (time_digits t) = 6%nat.
Proof.
  unfold time_digits. split.
  - apply Forall_app; split; [apply padded_digits|].
    apply Forall_app; split; apply padded_digits.
  - by rewrite !length_app, !padded_length.
Qed.

Lemma civil_from_days_month_day days :
  let '(y, m, d) := civil_from_days days in
  (m, d)
  = month_day_of_year_day (year_day_of_era_day ((days + 719468) mod 146097))%Z.
Proof.
  unfold civil_from_days, month_day_of_year_day, year_day_of_era_day.
  replace ((days + 719468) mod 146097)%Z
    with (days + 719468 - (days + 719468) / 146097 * 146097)%Z; [done|].
  rewrite Z.mod_eq by done. ring.
Qed.

Lemma year_day_range doe :
  (0 <= doe < 146097)%Z → (0 <= year_day_of_era_day doe <= 365)%Z.
Proof.
  intros H. unfold year_day_of_era_day. cbv zeta. Z.div_mod_to_equations. lia.
Qed.

Lemma month_day_range doy :
  (0 <= doy <= 365)%Z →
  (1 <= (month_day_of_year_day doy).1 <= 12
   ∧ 1 <= (month_day_of_year_day doy).2 <= 31)%Z.
Proof.
  intros H. unfold month_day_of_year_day. cbv zeta. cbn [fst snd].
  assert (0 <= (5 * doy + 2) / 153 <= 11)%Z as Hmp
    by (Z.div_mod_to_equations; lia).
  assert (153 * ((5 * doy + 2) / 153) <= 5 * doy + 2
          < 153 * ((5 * doy + 2) / 153) + 153)%Z as Hq
    by (Z.div_mod_to_equations; lia).
  generalize dependent ((5 * doy + 2) / 153)%Z. intros mp Hmp Hq.
  destruct (Z.ltb_spec mp 10);
    (split; [lia|]);
    assert (mp = 0 ∨ mp = 1 ∨ mp = 2 ∨ mp = 3 ∨ mp = 4 ∨ mp = 5 ∨ mp = 6
            ∨ mp = 7 ∨ mp = 8 ∨ mp = 9 ∨ mp = 10 ∨ mp = 11)%Z as Hcases by lia;
    repeat destruct Hcases as [->|Hcases]; try subst mp;
    Z.div_mod_to_equations; lia.
Qed.

(** Every field of a rendered instant fits its width: the month and the
    day, the hour, the minute and the second have at most two digits, the
    milliseconds at most three. *)
Lemma rendered_fields_in_range (t : instant) :
  let '(y, m, d) := civil_from_days (t / 86400000) in
  let r := (t mod 86400000)%Z in
  (1 <= m <= 12 ∧ 1 <= d <= 31 ∧ 0 <= r / 3600000 < 24
   ∧ 0 <= r / 60000 mod 60 < 60 ∧ 0 <= r / 1000 mod 60 < 60
   ∧ 0 <= r mod 1000 < 1000)%Z.
Proof.
  pose proof (civil_from_days_month_day (t / 86400000)) as Hmd.
  destruct (civil_from_days (t / 86400000)) as [[y m] d].
  pose proof (month_day_range _
                (year_day_range _
                   (Z.mod_pos_bound (t / 86400000 + 719468) 146097 eq_refl)))
    as Hrange.
  rewrite <- Hmd in Hrange. cbn [fst snd] in Hrange.
  pose proof (Z.mod_pos_bound t 86400000 eq_refl) as Hr.
  cbv zeta. split_and!; try lia.
  - apply Z.div_pos; lia.
  - apply Z.div_lt_upper_bound; lia.
  - by apply Z.mod_pos_bound.
  - by apply Z.mod_pos_bound.
  - by apply Z.mod_pos_bound.
  - by apply Z.mod_pos_bound.
  - by apply Z.mod_pos_bound.
  - by apply Z.mod_pos_bound.
Qed.

(** The rendering of an instant whose year has four digits, with its
    separators taken out. *)
Lemma stripped_timestamp t :
  (0 <= year_of t <= 9999)%Z →
  strip_date_separators (toISOString t)
  = date_digits t ++ [84] ++ time_digits t ++ millisecond_digits t ++ [90].
Proof.
  unfold year_of, toISOString, date_digits, time_digits, millisecond_digits,
    year_field.
  destruct (civil_from_days _) as [[y m] d]. intros [Hy1 Hy2].
  apply Z.leb_le in Hy1, Hy2. rewrite Hy1, Hy2. simpl andb. cbv iota.
  rewrite !strip_app, !strip_padded. by rewrite <- !app_assoc.
Qed.

Lemma compact_name_length t : length (compact_name t) = 22%nat.
Proof.
  destruct (date_digits_facts t) as [_ Hd], (time_digits_facts t) as [_ Ht].
  unfold compact_name. rewrite !length_app, Hd, Ht. done.
Qed.

(** C10, as stated, fails from the year 10000 on: the rendering of the
    instant starts with a plus sign, which stays in the generated name, and
    the name does not match the pattern. *)
Lemma generated_name_counterexample :
  toISOString 253402300800000%Z = js "+010000-01-01T00:00:00.000Z"
  ∧ createBackupName None (toISOString 253402300800000%Z)
    = inr (js "backup_+0100000101_000")
  ∧ name_pattern (js "backup_+0100000101_000") = false.
Proof. by vm_compute. Qed.

(** C10, amended.  At an instant of a year from 0000 to 9999, the name
    generated when none is supplied is [backup_] followed by the eight
    digits of the date, an underscore and the six digits of the time of
    day; it matches the name pattern and is no reserved word.  Generation
    itself never fails, whatever the timestamp: the result is not checked
    against the pattern. *)
Theorem generated_name (t : instant) :
  (0 <= year_of t <= 9999)%Z →
  createBackupName None (toISOString t) = inr (compact_name t)
  ∧ name_pattern (compact_name t) = true
  ∧ includes reserved_names (toLowerCase (compact_name t)) = false
  ∧ ∀ timestamp, ∃ n, createBackupName None timestamp = inr n.
Proof.
  intros Hyear.
  destruct (date_digits_facts t) as [Hdd Hdl], (time_digits_facts t) as [Htd Htl].
  split_and!.
  - rewrite createBackupName_generates by auto.
    rewrite (stripped_timestamp t Hyear), (replace_first_digits _ _ Hdd).
    rewrite replace_first_here.
    (* the fifteen units kept are the date, the underscore and the time *)
    reflexivity.
  - unfold name_pattern. rewrite compact_name_length.
    unfold compact_name. rewrite !forallb_app.
    rewrite (digits_name_units _ Hdd), (digits_name_units _ Htd). done.
  - unfold includes, reserved_names. cbn [existsb].
    rewrite !eqb_length_ne; [done|unfold toLowerCase..];
      rewrite length_map, compact_name_length; simpl; lia.
  - intros timestamp. eexists. by apply createBackupName_generates; left.
Qed.

Lemma generated_name_witness :
  createBackupName None (toISOString sample_time)
  = inr (js "backup_20251103_063600")
  ∧ name_pattern (js "backup_20251103_063600") = true.
Proof.
  destruct (generated_name sample_time) as (Hname & Hpattern & _).
  - by vm_compute.
  - split; [exact Hname|exact Hpattern].
Defined.

End GeneratedNames.

(** * Further properties of the store *)

(** ** What a creation leaves in the directory *)

Section CreatedStore.
Context (config : ServerConfig).

Lemma unlink_each_eq refused toDelete dir :
  unlink_each refused toDelete (Some dir)
  = (inr (), Some (remove_files refused toDelete dir)).
Proof.
  revert dir. induction toDelete as [|b rest IH]; intros dir; [done|].
  cbn [unlink_each]. unfold mbind, M_bind, try_catch, unlink, lookup_file.
  cbn [mbind option_bind]. unfold remove_files. cbn [foldl].
  destruct (dir !! Entry.filename b) eqn:E.
  - destruct (refused (Entry.filename b)); [apply IH|].
    cbn [fmap option_fmap option_map]. apply IH.
  - destruct (refused (Entry.filename b)); [apply IH|].
    rewrite (delete_id dir _ E). apply IH.
Qed.

(** A file is gone after the deletions when it is named by one of the
    entries and its deletion is not refused; otherwise it is what it was. *)
Lemma remove_files_lookup refused l dir path :
  remove_files refused l dir !! path
  = if bool_decide (path ∈ Entry.filename <$> l) && negb (refused path)
    then None else dir !! path.
Proof.
  revert dir. induction l as [|e l IH]; intros dir; [done|].
  unfold remove_files. cbn [foldl].
  rewrite fmap_cons.
  destruct (decide (path = Entry.filename e)) as [->|Hne].
  - rewrite (bool_decide_eq_true_2 (_ ∈ _ :: _)) by left. cbn [andb].
    destruct (refused (Entry.filename e)) eqn:Hr; cbn [negb].
    + fold (remove_files refused l dir). rewrite IH.
      by rewrite andb_false_r.
    + fold (remove_files refused l (delete (Entry.filename e) dir)).
      rewrite IH, andb_true_r, lookup_delete_eq. by case_bool_decide.
  - assert (bool_decide (path ∈ Entry.filename e :: (Entry.filename <$> l))
            = bool_decide (path ∈ Entry.filename <$> l)) as ->.
    { apply bool_decide_ext. rewrite elem_of_cons.
      split; [by intros [?|?]|by right]. }
    destruct (refused (Entry.filename e)).
    + fold (remove_files refused l dir). apply IH.
    + fold (remove_files refused l (delete (Entry.filename e) dir)).
      by rewrite IH, lookup_delete_ne.
Qed.

Lemma auto_cleanup_store refused cfg pushed dir :
  auto_cleanup refused cfg pushed (Some dir)
  = (inr (kept_backups cfg pushed),
     Some (remove_files refused (evicted_backups cfg pushed) dir)).
Proof.
  unfold auto_cleanup, kept_backups, evicted_backups.
  destruct (Index.autoCleanup cfg && (Index.maxBackups cfg <? length pushed)); [|done].
  unfold mbind, M_bind. by rewrite unlink_each_eq.
Qed.

Lemma persist_backup_store refused old md flows dir :
  persist_backup refused old md flows (Some dir)
  = (inr md, Some (created_dir refused old md flows dir)).
Proof.
  unfold persist_backup, mbind at 1, M_bind, writeFile at 1.
  unfold mbind at 1, M_bind. rewrite auto_cleanup_store.
  unfold mbind, M_bind, writeFile. done.
Qed.

Lemma persist_backup_initialized refused old md flows fs :
  persist_backup refused old md flows (initialized config fs)
  = (inr md,
     Some (created_dir refused old md flows (init_dir config (default ∅ fs)))).
Proof. apply persist_backup_store. Qed.

(** A creation that completes read an index [old] without the new name and
    leaves [created_dir]. *)
Lemma createBackup_completed name reason world fs md fs' :
  createBackup name reason config world fs = (inr md, fs') →
  ∃ flows analysis old,
    nodeRedFlows world = inr flows
    ∧ createBackupName name (toISOString (now world)) = inr (Meta.name md)
    ∧ analyzeFlows flows = inr analysis
    ∧ stored_index (initialized config fs) = Some old
    ∧ (Meta.name md ∉ Entry.name <$> Index.backups old)
    ∧ md = created_meta (Meta.name md) world reason analysis
    ∧ fs' = Some (created_dir (undeletable world) old md flows
                    (init_dir config (default ∅ fs))).
Proof.
  rewrite createBackup_steps. unfold stored_index.
  destruct (nodeRedFlows world) as [e|flows]; [done|].
  destruct (createBackupName _ _) as [e|backupName]; [done|].
  destruct (analyzeFlows flows) as [e|analysis] eqn:Ha; [done|].
  destruct (file_doc <$> lookup_file metadataFile (initialized config fs))
    as [[old|data|version backups|flows'|]|]; try done;
    [|by destruct (existsb _ _)].
  destruct (existsb _ _) eqn:Hfresh; [done|].
  rewrite persist_backup_initialized.
  intros [= <- <-]. exists flows, analysis, old.
  split_and!; try done.
  intros (e & He & Hin)%list_elem_of_fmap.
  apply not_true_iff_false in Hfresh. apply Hfresh.
  apply existsb_exists. exists e. split; [by apply list_elem_of_In|].
  apply eqb_eq. by rewrite <- He.
Qed.

(** A creation that fails leaves the initialized directory, except on an
    index without [config]: there the failure comes after the snapshot file
    is written. *)
Lemma createBackup_failed name reason world fs err :
  (createBackup name reason config world fs).1 = inl err →
  (createBackup name reason config world fs).2 = initialized config fs
  ∨ ∃ version backups flows analysis backupName,
      file_doc <$> lookup_file metadataFile (initialized config fs)
        = Some (ConfiglessIndexDoc version backups)
      ∧ nodeRedFlows world = inr flows
      ∧ createBackupName name (toISOString (now world)) = inr backupName
      ∧ analyzeFlows flows = inr analysis
      ∧ existsb (λ b, JsString.eqb (Entry.name b) backupName) backups = false
      ∧ err = Undecodable
      ∧ (createBackup name reason config world fs).2
        = with_snapshot (created_meta backupName world reason analysis) flows
            (initialized config fs).
Proof.
  rewrite createBackup_steps.
  destruct (nodeRedFlows world) as [e|flows]; [by left|].
  destruct (createBackupName _ _) as [e|backupName]; [by left|].
  destruct (analyzeFlows flows) as [e|analysis] eqn:Ha; [by left|].
  destruct (file_doc <$> lookup_file metadataFile (initialized config fs))
    as [[old|data|version backups|flows'|]|]; try by left.
  - destruct (existsb _ _); [by left|].
    by rewrite persist_backup_initialized.
  - destruct (existsb _ _) eqn:Hfresh; [by left|].
    intros [= <-]. right. by exists version, backups, flows, analysis, backupName.
Qed.

Lemma createBackup_failed_indexed name reason world fs err old :
  stored_index (initialized config fs) = Some old →
  (createBackup name reason config world fs).1 = inl err →
  (createBackup name reason config world fs).2 = initialized config fs.
Proof.
  intros Hold Herr.
  destruct (createBackup_failed name reason world fs err Herr)
    as [?|(version & backups & _ & _ & _ & Hdoc & _)]; [done|].
  unfold stored_index in Hold. by rewrite Hdoc in Hold.
Qed.

End CreatedStore.

(** ** What a creation touches *)

Section CreationFrame.
Context (config : ServerConfig).

Lemma kept_evicted_perm cfg pushed :
  kept_backups cfg pushed ++ evicted_backups cfg pushed ≡ₚ pushed.
Proof.
  unfold kept_backups, evicted_backups.
  destruct (Index.autoCleanup cfg && (Index.maxBackups cfg <? length pushed)).
  - by rewrite take_drop, sort_newest_first_perm.
  - by rewrite app_nil_r.
Qed.

Lemma kept_in_pushed cfg pushed e : e ∈ kept_backups cfg pushed → e ∈ pushed.
Proof.
  intros He. rewrite <- (kept_evicted_perm cfg pushed).
  apply elem_of_app. by left.
Qed.

Lemma evicted_in_pushed cfg pushed e : e ∈ evicted_backups cfg pushed → e ∈ pushed.
Proof.
  intros He. rewrite <- (kept_evicted_perm cfg pushed).
  apply elem_of_app. by right.
Qed.

Lemma created_dir_index refused old md flows dir :
  created_dir refused old md flows dir !! metadataFile
  = Some (written_file
            (IndexDoc
               (Index.mk (Index.version old) (Index.config old)
                  (kept_backups (Index.config old)
                     (Index.backups old ++ [new_entry md]))))).
Proof. unfold created_dir. apply lookup_insert_eq. Qed.

Lemma created_dir_other refused old md flows dir path :
  path ≠ metadataFile →
  created_dir refused old md flows dir !! path
  = if bool_decide
         (path ∈ Entry.filename
                 <$> evicted_backups (Index.config old)
                       (Index.backups old ++ [new_entry md]))
       && negb (refused path)
    then None
    else <[json_file (Meta.name md) :=
             written_file (BackupDoc (BackupData.mk md flows))]> dir !! path.
Proof.
  intros Hne. unfold created_dir.
  rewrite lookup_insert_ne by done. apply remove_files_lookup.
Qed.

(** A path that no evicted entry names is not deleted. *)
Lemma created_dir_spared refused old md flows dir path :
  path ≠ metadataFile →
  path ∉ Entry.filename
           <$> evicted_backups (Index.config old)
                 (Index.backups old ++ [new_entry md]) →
  created_dir refused old md flows dir !! path
  = <[json_file (Meta.name md) :=
        written_file (BackupDoc (BackupData.mk md flows))]> dir !! path.
Proof.
  intros Hne Hspared. rewrite created_dir_other by done.
  by rewrite bool_decide_eq_false_2.
Qed.

(** X1.  A creation that completes touches nothing but the index file,
    the file of the new snapshot and the files the index names: every
    other file of the directory is what it was. *)
Theorem createBackup_frame name reason world fs md fs' old path :
  createBackup name reason config world fs = (inr md, fs') →
  stored_index (initialized config fs) = Some old →
  path ≠ metadataFile →
  path ≠ json_file (Meta.name md) →
  path ∉ Entry.filename <$> Index.backups old →
  lookup_file path fs' = lookup_file path fs.
Proof.
  intros Hcreate Hold Hindex Hnew Hnamed.
  destruct (createBackup_completed config _ _ _ _ _ _ Hcreate)
    as (flows & analysis & old' & _ & _ & _ & Hold' & _ & _ & ->).
  rewrite Hold in Hold'. injection Hold' as <-.
  unfold lookup_file at 1. cbn [mbind option_bind].
  rewrite created_dir_other by done.
  rewrite bool_decide_eq_false_2.
  - rewrite lookup_insert_ne by done.
    by rewrite <- (initialized_other_files config fs path Hindex).
  - intros (e & He & Hin)%list_elem_of_fmap.
    apply evicted_in_pushed, elem_of_app in Hin as [Hin|Hin].
    + apply Hnamed. rewrite He. by apply list_elem_of_fmap_2.
    + apply list_elem_of_singleton in Hin as ->. by apply Hnew.
Qed.

(** X2.  What a creation that fails has written.  Writes to the
    directory being taken to succeed, a creation fails before its first
    write, and so leaves no snapshot file and no index entry, in every case
    but one: on an index that holds [backups] and no [config], the snapshot
    file is written before the read of the configuration throws, and the
    file stays, with no entry for it.  That case does occur. *)
Theorem createBackup_failure_store name reason world fs :
  (∀ err fs',
     createBackup name reason config world fs = (inl err, fs') →
     fs' = initialized config fs
     ∨ ∃ version backups flows analysis backupName,
         file_doc <$> lookup_file metadataFile (initialized config fs)
           = Some (ConfiglessIndexDoc version backups)
         ∧ nodeRedFlows world = inr flows
         ∧ createBackupName name (toISOString (now world)) = inr backupName
         ∧ analyzeFlows flows = inr analysis
         ∧ existsb (λ b, JsString.eqb (Entry.name b) backupName) backups = false
         ∧ err = Undecodable
         ∧ fs' = with_snapshot (created_meta backupName world reason analysis)
                   flows (initialized config fs))
  ∧ (∀ version backups flows analysis backupName,
       file_doc <$> lookup_file metadataFile (initialized config fs)
         = Some (ConfiglessIndexDoc version backups) →
       nodeRedFlows world = inr flows →
       createBackupName name (toISOString (now world)) = inr backupName →
       analyzeFlows flows = inr analysis →
       existsb (λ b, JsString.eqb (Entry.name b) backupName) backups = false →
       createBackup name reason config world fs
       = (inl Undecodable,
          with_snapshot (created_meta backupName world reason analysis) flows
            (initialized config fs))).
Proof.
  split.
  - intros err fs' Hcreate.
    pose proof (createBackup_failed config name reason world fs err) as H.
    rewrite Hcreate in H. cbn [fst snd] in H. by apply H.
  - intros version backups flows analysis backupName Hdoc Hflows Hname Ha Hfresh.
    by rewrite createBackup_steps, Hflows, Hname, Ha, Hdoc, Hfresh.
Qed.

(** X3.  Names stay unique: when the names of the index read by a creation
    are pairwise distinct, so are those of the index it writes, and each of
    them is an old name or the new one. *)
Theorem createBackup_keeps_names_distinct name reason world fs md fs' old :
  createBackup name reason config world fs = (inr md, fs') →
  stored_index (initialized config fs) = Some old →
  NoDup (Entry.name <$> Index.backups old) →
  ∃ new,
    stored_index fs' = Some new
    ∧ NoDup (Entry.name <$> Index.backups new)
    ∧ ∀ n, n ∈ Entry.name <$> Index.backups new →
           n ∈ Entry.name <$> Index.backups old ∨ n = Meta.name md.
Proof.
  intros Hcreate Hold Hnd.
  destruct (createBackup_completed config _ _ _ _ _ _ Hcreate)
    as (flows & analysis & old' & _ & _ & _ & Hold' & Hfresh & _ & ->).
  rewrite Hold in Hold'. injection Hold' as <-.
  eexists. split.
  { unfold stored_index, lookup_file. cbn [mbind option_bind].
    by rewrite created_dir_index. }
  cbn [Index.backups].
  assert (NoDup (Entry.name <$> Index.backups old ++ [new_entry md])) as Hpushed.
  { rewrite fmap_app. apply NoDup_app. split_and!; [done| |apply NoDup_singleton].
    intros n Hn Hn'. apply list_elem_of_singleton in Hn'. by subst. }
  split.
  - rewrite <- (kept_evicted_perm (Index.config old)), fmap_app in Hpushed.
    by apply NoDup_app in Hpushed as [? _].
  - intros n (e & -> & He)%list_elem_of_fmap.
    apply kept_in_pushed, elem_of_app in He as [He|He].
    + left. by apply list_elem_of_fmap_2.
    + right. by apply list_elem_of_singleton in He as ->.
Qed.

(** X4.  Without pruning (auto-cleanup off, or room left) a creation
    appends: the new index is the old one followed by the new entry, and no
    file other than the index and the new snapshot changes. *)
Theorem createBackup_appends name reason world fs md fs' old :
  createBackup name reason config world fs = (inr md, fs') →
  stored_index (initialized config fs) = Some old →
  Index.autoCleanup (Index.config old) = false
    ∨ length (Index.backups old) < Index.maxBackups (Index.config old) →
  stored_index fs'
  = Some (Index.mk (Index.version old) (Index.config old)
            (Index.backups old ++ [new_entry md]))
  ∧ ∀ path, path ≠ metadataFile → path ≠ json_file (Meta.name md) →
            lookup_file path fs' = lookup_file path fs.
Proof.
  intros Hcreate Hold Hroom.
  destruct (createBackup_completed config _ _ _ _ _ _ Hcreate)
    as (flows & analysis & old' & _ & _ & _ & Hold' & _ & _ & ->).
  rewrite Hold in Hold'. injection Hold' as <-.
  assert (Index.autoCleanup (Index.config old)
          && (Index.maxBackups (Index.config old)
              <? length (Index.backups old ++ [new_entry md])) = false) as Hoff.
  { destruct Hroom as [->|Hlt]; [done|].
    apply andb_false_iff. right. apply Nat.ltb_ge.
    rewrite length_app. simpl. lia. }
  split.
  - unfold stored_index, lookup_file. cbn [mbind option_bind].
    rewrite created_dir_index. unfold kept_backups. by rewrite Hoff.
  - intros path Hindex Hnew.
    unfold lookup_file at 1. cbn [mbind option_bind].
    rewrite created_dir_other by done.
    unfold evicted_backups. rewrite Hoff. cbn [fmap list_fmap].
    rewrite bool_decide_eq_false_2 by apply not_elem_of_nil.
    rewrite lookup_insert_ne by done.
    by rewrite <- (initialized_other_files config fs path Hindex).
Qed.

End CreationFrame.

(** ** Archives in order *)

Section Consistency.
Context (config : ServerConfig).

#[local] Instance json_file_inj : Inj (=) (=) json_file.
Proof. intros a b H. unfold json_file in H. by apply app_inv_tail in H. Qed.

Lemma json_file_index name :
  json_file name = metadataFile ↔ name = js "backup_metadata".
Proof.
  change metadataFile with (json_file (js "backup_metadata")).
  split; [apply json_file_inj|by intros ->].
Qed.

Lemma analyzeFlows_checksum flows a :
  analyzeFlows flows = inr a → Analysis.checksum a = flows_checksum flows.
Proof.
  unfold analyzeFlows. destruct flows; try done.
  destruct (filter_by_type is_tab elems); [done|].
  destruct (filter_by_type is_node elems); [done|].
  by intros [= <-].
Qed.

Lemma stored_index_file fs index :
  stored_index fs = Some index →
  ∃ dir f, fs = Some dir ∧ dir !! metadataFile = Some f
           ∧ file_doc f = IndexDoc index.
Proof.
  unfold stored_index, lookup_file. destruct fs as [dir|]; [|done].
  cbn [mbind option_bind]. destruct (dir !! metadataFile) as [f|] eqn:E; [|done].
  cbn [fmap option_fmap option_map]. destruct (file_doc f) eqn:Hdoc; try done.
  intros [= <-]. by exists dir, f.
Qed.

Lemma stored_index_initialized fs index :
  stored_index fs = Some index → initialized config fs = fs.
Proof.
  intros (dir & f & -> & Hf & _)%stored_index_file.
  apply initialized_existing. eauto.
Qed.

(** The file of the new snapshot, when the new name is not that of the
    index file and no evicted entry bears its file name. *)
Lemma created_dir_new_file refused old md flows dir :
  Meta.name md ≠ js "backup_metadata" →
  json_file (Meta.name md)
    ∉ Entry.filename
        <$> evicted_backups (Index.config old)
              (Index.backups old ++ [new_entry md]) →
  created_dir refused old md flows dir !! json_file (Meta.name md)
  = Some (written_file (BackupDoc (BackupData.mk md flows))).
Proof.
  intros Hname Hkept.
  rewrite created_dir_other by (by rewrite json_file_index).
  rewrite bool_decide_eq_false_2 by done. apply lookup_insert_eq.
Qed.

(** File names are pairwise distinct when names are and every entry is
    named after its file. *)
Lemma filenames_distinct (l : list Entry.t) :
  NoDup (Entry.name <$> l) →
  Forall (λ e, Entry.filename e = json_file (Entry.name e)) l →
  NoDup (Entry.filename <$> l).
Proof.
  intros Hnd Hall.
  assert (Entry.filename <$> l = json_file <$> (Entry.name <$> l)) as ->.
  { rewrite <- list_fmap_compose. apply Forall_fmap_ext_1.
    eapply Forall_impl; [exact Hall|]. by intros e ->. }
  by apply NoDup_fmap_2; [apply json_file_inj|].
Qed.

(** The directory a creation leaves from an archive in order is in order,
    unless the new backup is named like the index file. *)
Lemma created_dir_consistent refused old md flows dir :
  stored_index (Some dir) = Some old →
  NoDup (Entry.name <$> Index.backups old) →
  Forall (backed (Some dir)) (Index.backups old) →
  (Meta.name md ∉ Entry.name <$> Index.backups old) →
  Meta.name md ≠ js "backup_metadata" →
  Meta.checksum md = flows_checksum flows →
  consistent (Some (created_dir refused old md flows dir)).
Proof.
  intros Hold Hnd Hbacked Hfresh Hname Hsum.
  set (pushed := Index.backups old ++ [new_entry md]).
  assert (NoDup (Entry.name <$> pushed)) as Hnames.
  { unfold pushed. rewrite fmap_app. apply NoDup_app.
    split_and!; [done| |apply NoDup_singleton].
    intros n Hn Hn'. apply list_elem_of_singleton in Hn'. by subst. }
  assert (Forall (λ e, Entry.filename e = json_file (Entry.name e)) pushed)
    as Hnamed.
  { apply Forall_app. split; [|by repeat constructor].
    eapply Forall_impl; [exact Hbacked|]. by intros e [? _]. }
  pose proof (filenames_distinct pushed Hnames Hnamed) as Hfiles.
  rewrite <- (kept_evicted_perm (Index.config old)), fmap_app in Hfiles.
  apply NoDup_app in Hfiles as (_ & Hdisjoint & _).
  assert (∀ e, e ∈ kept_backups (Index.config old) pushed →
               Entry.filename e
                 ∉ Entry.filename <$> evicted_backups (Index.config old) pushed)
    as Hsafe.
  { intros e He. apply Hdisjoint. by apply list_elem_of_fmap_2. }
  eexists. split.
  { unfold stored_index, lookup_file. cbn [mbind option_bind].
    by rewrite created_dir_index. }
  cbn [Index.backups]. fold pushed. split.
  { rewrite <- (kept_evicted_perm (Index.config old)), fmap_app in Hnames.
    by apply NoDup_app in Hnames as [? _]. }
  apply Forall_forall. intros e He.
  pose proof (Hsafe e He) as Hnot.
  apply kept_in_pushed, elem_of_app in He as [He|He].
  - rewrite Forall_forall in Hbacked.
    destruct (Hbacked e He) as (Hfn & Hni & f' & flows' & Hf' & Hdoc' & Hv).
    split; [done|]. split; [done|]. exists f', flows'. split; [|done].
    unfold lookup_file. cbn [mbind option_bind].
    rewrite created_dir_other by done.
    rewrite bool_decide_eq_false_2 by done.
    rewrite lookup_insert_ne; [done|].
    rewrite Hfn. intros Heq%json_file_inj. apply Hfresh.
    rewrite Heq. by apply list_elem_of_fmap_2.
  - apply list_elem_of_singleton in He as ->.
    unfold backed, new_entry, Entry.name, Entry.checksum in *.
    cbn [Entry.filename Entry.meta] in *.
    split; [done|]. split; [by rewrite json_file_index|].
    eexists _, flows. split.
    + unfold lookup_file. cbn [mbind option_bind].
      by apply created_dir_new_file.
    + split; [done|]. unfold verify. rewrite Hsum. apply eqb_refl.
Qed.

(** A creation from an initialized archive in order, whatever its
    outcome. *)
Lemma createBackup_consistent name reason world fs :
  consistent (initialized config fs) →
  (∀ md, (createBackup name reason config world fs).1 = inr md →
         Meta.name md ≠ js "backup_metadata") →
  consistent (createBackup name reason config world fs).2.
Proof.
  intros Hfs Hname.
  destruct (createBackup name reason config world fs) as [[err|md] fs'] eqn:Hcreate.
  { destruct (Hfs) as (old & Hold & _).
    pose proof (createBackup_failed_indexed config name reason world fs err old
                  Hold) as H.
    rewrite Hcreate in H. cbn [fst snd] in *. by rewrite H. }
  specialize (Hname md eq_refl). cbn [snd].
  destruct Hfs as (old & Hold & Hnd & Hbacked).
  destruct (createBackup_completed config _ _ _ _ _ _ Hcreate)
    as (flows & analysis & old' & _ & _ & Ha & Hold' & Hfresh & Hmd & ->).
  rewrite Hold in Hold'. injection Hold' as <-.
  apply created_dir_consistent; try done.
  rewrite Hmd. cbn [created_meta Meta.checksum].
  by apply analyzeFlows_checksum.
Qed.


End Consistency.

(** ** The health check, entry by entry *)

Section HealthLoop.
Context (config : ServerConfig).

Lemma check_file_eq e totalSize corruptedCount fs :
  check_file e (totalSize, corruptedCount) fs
  = (inr ((totalSize + entry_file_size fs e)%N,
          if entry_intact fs e then corruptedCount else S corruptedCount), fs).
Proof.
  unfold check_file, entry_file_size, entry_intact.
  unfold try_catch, mbind, M_bind, stat_size, lift.
  destruct (lookup_file (Entry.filename e) fs) as [f|] eqn:E.
  - rewrite readFile_eq, E. simpl.
    by destruct (doc_flows (file_doc f)).
  - simpl. by rewrite N.add_0_r.
Qed.

Lemma check_files_eq l totalSize corruptedCount fs :
  check_files l (totalSize, corruptedCount) fs
  = (inr ((totalSize + total_file_size fs l)%N,
          corruptedCount + length (corrupted_entries fs l)), fs).
Proof.
  revert totalSize corruptedCount.
  induction l as [|e l IH]; intros totalSize corruptedCount.
  - cbn. by rewrite N.add_0_r, Nat.add_0_r.
  - cbn [check_files]. unfold mbind, M_bind. rewrite check_file_eq, IH.
    unfold corrupted_entries. cbn [total_file_size foldr List.filter].
    fold (total_file_size fs l). rewrite N.add_assoc.
    destruct (entry_intact fs e); cbn [negb length]; do 3 f_equal; lia.
Qed.

(** The health check as a function of the parsed index file. *)
Lemma checkBackupHealth_eq world fs :
  checkBackupHealth config world fs
  = (inr match file_doc <$> lookup_file metadataFile (initialized config fs) with
         | Some doc =>
             match doc_backups doc with
             | inr backups => health_report world (initialized config fs) doc backups
             | inl _ => failed_report
             end
         | None => failed_report
         end, initialized config fs).
Proof.
  unfold checkBackupHealth, mbind at 1, M_bind.
  rewrite ensureBackupDirectory_eq.
  unfold try_catch, mbind at 1, M_bind. rewrite readFile_eq.
  destruct (file_doc <$> lookup_file metadataFile (initialized config fs))
    as [doc|]; [|done].
  unfold mbind at 1, M_bind, lift.
  destruct (doc_backups doc) as [err|backups]; [done|].
  unfold health_report.
  destruct (length backups =? 0); [done|].
  unfold mbind, M_bind. rewrite check_files_eq. cbn [Nat.add N.add].
  by destruct (doc_index doc).
Qed.

Lemma stored_index_read fs index :
  stored_index fs = Some index →
  file_doc <$> lookup_file metadataFile fs = Some (IndexDoc index).
Proof.
  intros (dir & f & -> & Hf & Hdoc)%stored_index_file.
  unfold lookup_file. cbn [mbind option_bind]. by rewrite Hf; cbn; rewrite Hdoc.
Qed.

(** The report on a non-empty archive. *)
Lemma checkBackupHealth_report world fs index :
  stored_index fs = Some index →
  Index.backups index ≠ [] →
  let backups := Index.backups index in
  let corruptedCount := length (corrupted_entries fs backups) in
  let totalSize := total_file_size fs backups in
  let latestAge :=
    (λ latestBackup, round_minutes (now world - Entry.timestamp latestBackup))
      <$> head (sort_newest_first backups) in
  let maxBackups := Index.maxBackups (Index.config index) in
  checkBackupHealth config world fs
  = (inr (Health.mk (negb (0 <? corruptedCount)) (length backups) totalSize
            latestAge
            ((if 0 <? corruptedCount then [CorruptedBackups corruptedCount] else [])
             ++ (if latest_is_old latestAge then [LatestBackupOld] else [])
             ++ (if Double.at_least_nine_tenths (length backups) maxBackups
                 then [ApproachingLimit (length backups) maxBackups] else [])
             ++ (if (disk_space_threshold <? totalSize)%N
                 then [SignificantDiskSpace] else []))), fs).
Proof.
  intros Hindex Hne.
  rewrite checkBackupHealth_eq, (stored_index_initialized config fs index Hindex).
  rewrite (stored_index_read fs index Hindex).
  cbn [doc_backups]. unfold health_report. cbn [doc_index].
  destruct (Nat.eqb_spec (length (Index.backups index)) 0) as [Hlen|_]; [|done].
  by destruct (Index.backups index).
Qed.

Lemma consistent_no_corrupted fs index :
  consistent fs → stored_index fs = Some index →
  corrupted_entries fs (Index.backups index) = [].
Proof.
  intros (index' & Hindex' & _ & Hbacked) Hindex.
  rewrite Hindex in Hindex'. injection Hindex' as <-.
  clear Hindex. unfold corrupted_entries.
  induction Hbacked as [|e l (_ & _ & f & flows & Hf & Hdoc & Hv) _ IH]; [done|].
  cbn [List.filter]. unfold entry_intact at 1.
  rewrite Hf. cbn [fmap option_fmap option_map]. rewrite Hdoc.
  cbn [doc_flows BackupData.flows]. by rewrite Hv.
Qed.

(** X6.  What the report on a non-empty archive says of the files.  The
    count is the number of entries; the total size adds up the sizes of the
    files that exist, intact or not; the report is healthy exactly when no
    entry fails the check, which reads the payload of the file and nothing
    else of it: an entry fails when its file is missing, holds no [flows],
    or holds [flows] of a digest other than the checksum the index records.
    Otherwise the number of failing entries is reported. *)
Theorem checkBackupHealth_files world fs index :
  stored_index fs = Some index →
  Index.backups index ≠ [] →
  ∃ h,
    checkBackupHealth config world fs = (inr h, fs)
    ∧ Health.count h = length (Index.backups index)
    ∧ Health.totalSize h = total_file_size fs (Index.backups index)
    ∧ (Health.healthy h = true ↔ corrupted_entries fs (Index.backups index) = [])
    ∧ (∀ n, CorruptedBackups n ∈ Health.issues h
            ↔ n = length (corrupted_entries fs (Index.backups index)) ∧ 0 < n).
Proof.
  intros Hindex Hne.
  pose proof (checkBackupHealth_report world fs index Hindex Hne) as Hreport.
  cbv zeta in Hreport.
  set (corrupted := corrupted_entries fs (Index.backups index)) in *.
  eexists. split; [exact Hreport|].
  cbn [Health.count Health.totalSize Health.healthy Health.issues].
  split_and!; [done|done| |].
  - rewrite negb_true_iff, Nat.ltb_ge. destruct corrupted; simpl; [done|].
    split; [lia|done].
  - intros n. rewrite !elem_of_app, !elem_of_if_singleton. split.
    + intros [[Hc [= Hn]]|[[_ [=]]|[[_ [=]]|[_ [=]]]]].
      apply Nat.ltb_lt in Hc. split; [done|by rewrite Hn].
    + intros [-> Hc]. left. by apply Nat.ltb_lt in Hc.
Qed.

(** X7.  An archive in order is reported healthy: no entry is counted
    as corrupted. *)
Theorem consistent_archive_is_healthy world fs index :
  consistent fs →
  stored_index fs = Some index →
  Index.backups index ≠ [] →
  ∃ h, checkBackupHealth config world fs = (inr h, fs)
       ∧ Health.healthy h = true
       ∧ ∀ n, CorruptedBackups n ∉ Health.issues h.
Proof.
  intros Hfs Hindex Hne.
  pose proof (checkBackupHealth_report world fs index Hindex Hne) as Hreport.
  cbv zeta in Hreport.
  rewrite (consistent_no_corrupted fs index Hfs Hindex) in Hreport.
  eexists. split; [exact Hreport|].
  cbn [Health.healthy Health.issues length Nat.ltb Nat.leb negb].
  split; [done|]. intros n. rewrite !elem_of_app, !elem_of_if_singleton.
  intros [Hn|[[_ [=]]|[[_ [=]]|[_ [=]]]]]. by apply elem_of_nil in Hn.
Qed.

(** X8.  On an archive without entries, a fresh directory included, the
    report is unhealthy, says that no backup was found and nothing else,
    and leaves the age unset. *)
Theorem checkBackupHealth_empty world fs index :
  stored_index (initialized config fs) = Some index →
  Index.backups index = [] →
  checkBackupHealth config world fs
  = (inr (Health.mk false 0 0 None [NoBackupsFound]), initialized config fs).
Proof.
  intros Hindex Hempty.
  rewrite checkBackupHealth_eq, (stored_index_read _ index Hindex).
  cbn [doc_backups]. unfold health_report. by rewrite Hempty.
Qed.

(** X9.  What an index file that is not a complete index does to the
    operations.  When its [backups] cannot be read (the text is not JSON, or
    the value has no such property), the file is never repaired nor
    overwritten: the health check reports that initialization failed and
    nothing else, listing fails, a creation fails, and the directory stays
    as it is.  When it holds [backups] and no [config], listing works as on
    a complete index, and the health check on a non-empty list counts,
    measures and checks the files, then fails on the configuration: the
    report is unhealthy, keeps count, size, age and the issues found, and
    adds that initialization failed. *)
Theorem undecodable_index_blocks name reason world detailed fs f :
  lookup_file metadataFile fs = Some f →
  (unreadable_index (file_doc f) →
   checkBackupHealth config world fs = (inr failed_report, fs)
   ∧ listBackups detailed config fs = (inl Undecodable, fs)
   ∧ ∃ err, createBackup name reason config world fs = (inl err, fs))
  ∧ (∀ version backups,
       file_doc f = ConfiglessIndexDoc version backups →
       listBackups detailed config fs
       = (inr (imap (view (default false detailed)) (sort_newest_first backups)),
          fs)
       ∧ (backups ≠ [] →
          ∃ h,
            checkBackupHealth config world fs = (inr h, fs)
            ∧ Health.healthy h = false
            ∧ Health.count h = length backups
            ∧ Health.totalSize h = total_file_size fs backups
            ∧ Health.latestAge h
              = (λ latest, round_minutes (now world - Entry.timestamp latest))
                  <$> head (sort_newest_first backups)
            ∧ (InitializationFailed ∈ Health.issues h)
            ∧ (∀ n, CorruptedBackups n ∈ Health.issues h
                    ↔ n = length (corrupted_entries fs backups) ∧ 0 < n)
            ∧ (∀ count maxBackups,
                 ApproachingLimit count maxBackups ∉ Health.issues h))).
Proof.
  intros Hf.
  pose proof (initialized_of_index config fs f Hf) as Hinit.
  assert (file_doc <$> lookup_file metadataFile fs = Some (file_doc f)) as Hread
    by (by rewrite Hf).
  split.
  - intros Hdoc. split_and!.
    + rewrite checkBackupHealth_eq, Hinit, Hread.
      by destruct (file_doc f).
    + rewrite listBackups_eq, Hinit, Hread.
      by destruct (file_doc f).
    + rewrite createBackup_steps, Hinit, Hread.
      destruct (nodeRedFlows world); [by eexists|].
      destruct (createBackupName _ _); [by eexists|].
      destruct (analyzeFlows _); [by eexists|].
      destruct (file_doc f); try done; by eexists.
  - intros version backups Hdoc. rewrite Hdoc in Hread. split.
    + by rewrite listBackups_eq, Hinit, Hread.
    + intros Hne. rewrite checkBackupHealth_eq, Hinit, Hread.
      cbn [doc_backups]. unfold health_report. cbn [doc_index].
      destruct (Nat.eqb_spec (length backups) 0) as [Hlen|_].
      { by destruct backups. }
      eexists. split; [done|].
      cbn [Health.healthy Health.count Health.totalSize Health.latestAge
           Health.issues].
      split_and!; try done.
      * rewrite !elem_of_app. right. right. by apply list_elem_of_singleton.
      * intros n. rewrite !elem_of_app, !elem_of_if_singleton,
          list_elem_of_singleton. split.
        -- intros [[Hc [= Hn]]|[[_ [=]]|[=]]].
           apply Nat.ltb_lt in Hc. split; [done|by rewrite Hn].
        -- intros [-> Hc]. left. by apply Nat.ltb_lt in Hc.
      * intros count maxBackups.
        rewrite !elem_of_app, !elem_of_if_singleton, list_elem_of_singleton.
        by intros [[_ [=]]|[[_ [=]]|[=]]].
Qed.

End HealthLoop.

(** ** Fetching what the index lists *)

Section Fetching.
Context (config : ServerConfig).

Lemma entry_checksum e : Entry.checksum e = Meta.checksum (Entry.meta e).
Proof. done. Qed.

(** Every operation starts from the initialized directory. *)
Lemma createBackup_initialized name reason world fs :
  createBackup name reason config world (initialized config fs)
  = createBackup name reason config world fs.
Proof. by rewrite !createBackup_steps, initialized_idemp. Qed.

Lemma listBackups_initialized detailed fs :
  listBackups detailed config (initialized config fs)
  = listBackups detailed config fs.
Proof. by rewrite !listBackups_eq, initialized_idemp. Qed.

Lemma getBackupFlows_initialized backupName fs :
  getBackupFlows backupName config (initialized config fs)
  = getBackupFlows backupName config fs.
Proof. by rewrite !getBackupFlows_eq, initialized_idemp. Qed.

Lemma after_ensure {A} (body : M A) fs :
  (ensureBackupDirectory config;; body) (initialized config fs)
  = (ensureBackupDirectory config;; body) fs.
Proof.
  unfold mbind, M_bind. by rewrite !ensureBackupDirectory_eq, initialized_idemp.
Qed.

Lemma checkBackupHealth_initialized world fs :
  checkBackupHealth config world (initialized config fs)
  = checkBackupHealth config world fs.
Proof. apply after_ensure. Qed.

Lemma backed_fetch fs index e :
  stored_index fs = Some index →
  backed fs e →
  ∃ flows,
    getBackupFlows (Entry.name e) config fs
    = (inr (BackupData.mk (Entry.meta e) flows), fs)
    ∧ verify flows (Entry.checksum e) = true.
Proof.
  intros Hindex (Hfn & _ & f & flows & Hf & Hdoc & Hv).
  exists flows. split; [|done].
  rewrite getBackupFlows_eq, (stored_index_initialized config fs index Hindex).
  rewrite <- Hfn, Hf. cbn [fmap option_fmap option_map]. rewrite Hdoc.
  cbn [BackupData.flows BackupData.metadata].
  by rewrite <- entry_checksum, Hv.
Qed.

(** X10.  In an archive in order every backup the listing shows can be
    fetched by the name shown: the fetch returns the metadata of the index
    entry, with the time shown, and a payload whose digest is the recorded
    checksum. *)
Theorem listed_backups_fetchable detailed fs views fs' v :
  consistent fs →
  listBackups detailed config fs = (inr views, fs') →
  v ∈ views →
  ∃ data,
    getBackupFlows (BackupView.name v) config fs = (inr data, fs)
    ∧ Meta.name (BackupData.metadata data) = BackupView.name v
    ∧ Meta.timestamp (BackupData.metadata data) = BackupView.timestamp v
    ∧ flows_checksum (BackupData.flows data)
      = Meta.checksum (BackupData.metadata data).
Proof.
  intros (index & Hindex & _ & Hbacked) Hlist Hv.
  pose proof (stored_index_initialized config fs index Hindex) as Hinit.
  destruct (stored_index_file fs index Hindex) as (dir & f & Hfs & Hf & Hdoc).
  rewrite listBackups_eq, Hinit in Hlist.
  assert (file_doc <$> lookup_file metadataFile fs = Some (IndexDoc index)) as Hread.
  { rewrite Hfs. unfold lookup_file. cbn [mbind option_bind].
    by rewrite Hf; cbn; rewrite Hdoc. }
  rewrite Hread in Hlist. injection Hlist as <- _.
  apply list_elem_of_lookup in Hv as [i Hi].
  rewrite list_lookup_imap in Hi.
  destruct (sort_newest_first (Index.backups index) !! i) as [e|] eqn:He;
    [|done].
  injection Hi as <-.
  apply list_elem_of_lookup_2 in He. rewrite sort_newest_first_perm in He.
  rewrite Forall_forall in Hbacked.
  destruct (backed_fetch fs index e Hindex (Hbacked e He)) as (flows & Hfetch & Hverify).
  exists (BackupData.mk (Entry.meta e) flows). split_and!; [done..|].
  cbn [BackupData.flows BackupData.metadata].
  unfold verify in Hverify. by apply eqb_eq in Hverify.
Qed.

(** X11.  A fetch that returns a snapshot returns one whose payload has
    the digest its own metadata records, read from the file named after the
    backup; a fetch of a name without a file fails with "not found", and
    only then. *)
Theorem getBackupFlows_sound backupName fs :
  (∀ data, (getBackupFlows backupName config fs).1 = inr data →
     flows_checksum (BackupData.flows data)
     = Meta.checksum (BackupData.metadata data)
     ∧ ∃ f, lookup_file (json_file backupName) (initialized config fs) = Some f
            ∧ file_doc f = BackupDoc data)
  ∧ ((getBackupFlows backupName config fs).1 = inl (BackupNotFound backupName)
     ↔ lookup_file (json_file backupName) (initialized config fs) = None).
Proof.
  rewrite getBackupFlows_eq. cbn [fst].
  destruct (lookup_file (json_file backupName) (initialized config fs))
    as [f|] eqn:Hf; cbn [fmap option_fmap option_map].
  - split; [|by destruct (file_doc f) as [|data| | |]; try destruct (verify _ _)].
    intros data. destruct (file_doc f) as [|data'| | |] eqn:Hdoc; try done.
    destruct (verify _ _) eqn:Hverify; [|done].
    intros [= <-]. split; [|by exists f].
    unfold verify in Hverify. by apply eqb_eq in Hverify.
  - by split.
Qed.

End Fetching.

(** ** Sessions of calls *)

Section Sessions.
Context (config : ServerConfig).





Lemma created_dir_stored_index refused old md flows dir :
  stored_index (Some (created_dir refused old md flows dir))
  = Some (Index.mk (Index.version old) (Index.config old)
            (kept_backups (Index.config old)
               (Index.backups old ++ [new_entry md]))).
Proof.
  unfold stored_index, lookup_file. cbn [mbind option_bind].
  by rewrite created_dir_index.
Qed.



Lemma after_call_initialized c fs :
  after_call config c (initialized config fs) = after_call config c fs.
Proof.
  destruct c; cbn [after_call].
  - by rewrite createBackup_initialized.
  - by rewrite listBackups_initialized.
  - by rewrite getBackupFlows_initialized.
  - by rewrite checkBackupHealth_initialized.
Qed.

Lemma after_call_stored_config c fs index :
  stored_index fs = Some index →
  ∃ index', stored_index (after_call config c fs) = Some index'
            ∧ Index.config index' = Index.config index
            ∧ Index.version index' = Index.version index
            ∧ (within_capacity index → within_capacity index').
Proof.
  intros Hindex.
  pose proof (stored_index_initialized config fs index Hindex) as Hinit.
  destruct c as [name reason world|detailed|name|world]; cbn [after_call].
  - destruct (createBackup name reason config world fs) as [[err|md] fs'] eqn:Hcreate.
    + pose proof (createBackup_failed_indexed config name reason world fs err
                    index) as H.
      rewrite Hcreate, Hinit in H. cbn [fst snd] in *. rewrite H by done.
      by exists index.
    + destruct (createBackup_completed config _ _ _ _ _ _ Hcreate)
        as (flows & _ & old & _ & _ & _ & Hold & _ & _ & ->).
      rewrite Hinit, Hindex in Hold. injection Hold as <-.
      cbn [snd]. rewrite created_dir_stored_index.
      eexists. split_and!; [done..|].
      intros _ Hauto. cbn [Index.config Index.backups] in *.
      by apply kept_backups_spec.
  - rewrite listBackups_eq, Hinit. by exists index.
  - rewrite getBackupFlows_eq, Hinit. by exists index.
  - rewrite checkBackupHealth_frame, Hinit. by exists index.
Qed.

Lemma after_calls_stored_config calls fs index :
  stored_index fs = Some index →
  ∃ index', stored_index (after_calls config calls fs) = Some index'
            ∧ Index.config index' = Index.config index
            ∧ Index.version index' = Index.version index
            ∧ (within_capacity index → within_capacity index').
Proof.
  revert fs index. induction calls as [|c calls IH]; intros fs index Hindex.
  { by exists index. }
  destruct (after_call_stored_config c fs index Hindex)
    as (index1 & Hindex1 & Hconfig1 & Hversion1 & Hwithin1).
  destruct (IH _ _ Hindex1) as (index' & Hindex' & Hconfig' & Hversion' & Hwithin').
  exists index'. split; [done|]. rewrite Hconfig', Hversion'. auto.
Qed.

Lemma after_calls_initialized calls fs :
  calls ≠ [] →
  after_calls config calls (initialized config fs) = after_calls config calls fs.
Proof.
  destruct calls as [|c calls]; [done|]. intros _.
  cbn [after_calls foldl]. by rewrite after_call_initialized.
Qed.

(** X13.  The capacity and the cleanup switch are those of the index
    file: once an index exists, no call changes them, whatever the
    configuration of the server that makes the calls. *)
Theorem session_keeps_stored_config calls fs index :
  stored_index fs = Some index →
  ∃ index', stored_index (after_calls config calls fs) = Some index'
            ∧ Index.config index' = Index.config index
            ∧ Index.version index' = Index.version index.
Proof.
  intros Hindex.
  destruct (after_calls_stored_config calls fs index Hindex)
    as (index' & Hindex' & Hconfig & Hversion & _).
  by exists index'.
Qed.

(** X14.  A backup named like the index file is accepted and then lost:
    the creation completes, its snapshot is overwritten by the index, and
    fetching the backup fails. *)
Theorem index_named_backup_is_lost reason world fs flows analysis old :
  nodeRedFlows world = inr flows →
  analyzeFlows flows = inr analysis →
  stored_index (initialized config fs) = Some old →
  (js "backup_metadata" ∉ Entry.name <$> Index.backups old) →
  ∃ md fs',
    createBackup (Some (js "backup_metadata")) reason config world fs
    = (inr md, fs')
    ∧ Meta.name md = js "backup_metadata"
    ∧ getBackupFlows (js "backup_metadata") config fs' = (inl Undecodable, fs').
Proof.
  intros Hflows Ha Hold Hfresh.
  destruct (stored_index_file _ old Hold) as (dir & f & Hfs & Hf & Hdoc).
  rewrite createBackup_steps, Hflows.
  change (createBackupName (Some (js "backup_metadata")) (toISOString (now world)))
    with (inr (A := error) (js "backup_metadata")).
  rewrite Ha.
  assert (file_doc <$> lookup_file metadataFile (initialized config fs)
          = Some (IndexDoc old)) as ->.
  { rewrite Hfs. unfold lookup_file. cbn [mbind option_bind].
    by rewrite Hf; cbn; rewrite Hdoc. }
  assert (existsb (λ b, JsString.eqb (Entry.name b) (js "backup_metadata"))
            (Index.backups old) = false) as ->.
  { apply not_true_is_false. intros (e & He & Heq)%existsb_exists.
    apply eqb_eq in Heq. apply Hfresh. rewrite <- Heq.
    apply list_elem_of_fmap_2. by apply list_elem_of_In. }
  rewrite persist_backup_initialized. eexists _, _. split; [done|].
  split; [done|].
  rewrite getBackupFlows_eq.
  set (dir' := created_dir _ _ _ _ _).
  assert (initialized config (Some dir') = Some dir') as ->.
  { apply initialized_existing. unfold dir'. rewrite created_dir_index. eauto. }
  unfold lookup_file. cbn [mbind option_bind].
  change (json_file (js "backup_metadata")) with metadataFile.
  unfold dir'. by rewrite created_dir_index.
Qed.

Lemma pushed_filenames_distinct dir old md :
  NoDup (Entry.name <$> Index.backups old) →
  Forall (backed (Some dir)) (Index.backups old) →
  (Meta.name md ∉ Entry.name <$> Index.backups old) →
  NoDup (Entry.filename <$> Index.backups old ++ [new_entry md]).
Proof.
  intros Hnd Hbacked Hfresh. apply filenames_distinct.
  - rewrite fmap_app. apply NoDup_app.
    split_and!; [done| |apply NoDup_singleton].
    intros n Hn Hn'. apply list_elem_of_singleton in Hn'. by subst.
  - apply Forall_app. split; [|by repeat constructor].
    eapply Forall_impl; [exact Hbacked|]. by intros e [? _].
Qed.

(** X15.  Round trip: after a creation in an archive in order, as long
    as the new backup is in the index, fetching it by the name returned
    gives the metadata returned and the payload Node-RED gave at the
    creation. *)
Theorem created_backup_fetchable name reason world fs md fs' new :
  consistent (initialized config fs) →
  createBackup name reason config world fs = (inr md, fs') →
  Meta.name md ≠ js "backup_metadata" →
  stored_index fs' = Some new →
  Meta.name md ∈ Entry.name <$> Index.backups new →
  ∃ flows,
    nodeRedFlows world = inr flows
    ∧ getBackupFlows (Meta.name md) config fs'
      = (inr (BackupData.mk md flows), fs').
Proof.
  intros (old & Hold & Hnd & Hbacked) Hcreate Hname Hnew Hlisted.
  destruct (createBackup_completed config _ _ _ _ _ _ Hcreate)
    as (flows & analysis & old' & Hflows & _ & Ha & Hold' & Hfresh & Hmd & ->).
  rewrite Hold in Hold'. injection Hold' as <-.
  exists flows. split; [done|].
  rewrite created_dir_stored_index in Hnew. injection Hnew as <-.
  cbn [Index.backups] in Hlisted.
  set (dir := init_dir config (default ∅ fs)) in *.
  set (pushed := Index.backups old ++ [new_entry md]) in *.
  pose proof (pushed_filenames_distinct dir old md Hnd Hbacked Hfresh) as Hfiles.
  fold pushed in Hfiles.
  assert (new_entry md ∈ kept_backups (Index.config old) pushed) as Hkept.
  { apply list_elem_of_fmap in Hlisted as (e & He & Hin).
    pose proof (kept_in_pushed _ _ _ Hin) as Hp.
    apply elem_of_app in Hp as [Hp|Hp].
    - destruct Hfresh. rewrite He. by apply list_elem_of_fmap_2.
    - apply list_elem_of_singleton in Hp. by subst. }
  rewrite <- (kept_evicted_perm (Index.config old)), fmap_app in Hfiles.
  apply NoDup_app in Hfiles as (_ & Hdisjoint & _).
  pose proof (Hdisjoint _ (list_elem_of_fmap_2 Entry.filename _ _ Hkept)) as Hsafe.
  cbn [new_entry Entry.filename] in Hsafe.
  rewrite getBackupFlows_eq.
  assert (initialized config
            (Some (created_dir (undeletable world) old md flows dir))
          = Some (created_dir (undeletable world) old md flows dir)) as ->.
  { apply initialized_existing. rewrite created_dir_index. eauto. }
  unfold lookup_file. cbn [mbind option_bind].
  rewrite created_dir_new_file by done.
  cbn [fmap option_fmap option_map written_file file_doc
       BackupData.flows BackupData.metadata].
  assert (verify flows (Meta.checksum md) = true) as ->; [|done].
  unfold verify. rewrite Hmd. cbn [created_meta Meta.checksum].
  rewrite (analyzeFlows_checksum _ _ Ha). apply eqb_refl.
Qed.

(** X16.  Cleanup deletes what it drops, as far as the file system
    lets it.  After a completed creation, an entry that was in the index,
    or the new entry itself, and is not in the index any more has no file
    left, unless the deletion of its file was refused: then the creation
    has completed all the same, and the file of an old entry is what it
    was. *)
Theorem evicted_files_deleted name reason world fs md fs' old new e :
  createBackup name reason config world fs = (inr md, fs') →
  stored_index (initialized config fs) = Some old →
  stored_index fs' = Some new →
  e ∈ Index.backups old ++ [new_entry md] →
  e ∉ Index.backups new →
  Entry.filename e ≠ metadataFile →
  (undeletable world (Entry.filename e) = false →
   lookup_file (Entry.filename e) fs' = None)
  ∧ (undeletable world (Entry.filename e) = true →
     Entry.filename e ≠ json_file (Meta.name md) →
     lookup_file (Entry.filename e) fs' = lookup_file (Entry.filename e) fs).
Proof.
  intros Hcreate Hold Hnew He Hgone Hfile.
  destruct (createBackup_completed config _ _ _ _ _ _ Hcreate)
    as (flows & analysis & old' & _ & _ & _ & Hold' & _ & _ & ->).
  rewrite Hold in Hold'. injection Hold' as <-.
  rewrite created_dir_stored_index in Hnew. injection Hnew as <-.
  cbn [Index.backups] in Hgone.
  rewrite <- (kept_evicted_perm (Index.config old)) in He.
  apply elem_of_app in He as [He|He]; [done|].
  unfold lookup_file at 1 2. cbn [mbind option_bind].
  rewrite created_dir_other by done.
  rewrite bool_decide_eq_true_2 by (by apply list_elem_of_fmap_2).
  split.
  - by intros ->.
  - intros -> Hother. cbn [andb negb].
    rewrite lookup_insert_ne by done.
    by rewrite <- (initialized_other_files config fs _ Hfile).
Qed.

End Sessions.

(** ** Ranks in the sorted list *)

Section Retention.
Context (config : ServerConfig).

Lemma insert_before_older x o front back :
  (Entry.timestamp x <= Entry.timestamp o)%Z →
  insert_newest_first o (front ++ x :: back)
  = insert_newest_first o front ++ x :: back.
Proof.
  intros Hle. induction front as [|y front IH]; cbn [insert_newest_first app].
  - by apply Z.leb_le in Hle as ->.
  - destruct (Entry.timestamp y <=? Entry.timestamp o)%Z; [done|].
    by rewrite IH.
Qed.

Lemma insert_after_newer o front back :
  Forall (λ y, (Entry.timestamp o < Entry.timestamp y)%Z) front →
  insert_newest_first o (front ++ back) = front ++ insert_newest_first o back.
Proof.
  induction 1 as [|y front Hy _ IH]; [done|].
  cbn [insert_newest_first app].
  apply Z.leb_gt in Hy as ->. by rewrite IH.
Qed.

(** Where the entry pushed last lands: behind every entry at least as
    recent as it, ahead of the others. *)
Lemma sort_pushed old x :
  sort_newest_first (old ++ [x])
  = sort_newest_first (at_least_as_recent (Entry.timestamp x) old)
    ++ x :: sort_newest_first (made_before (Entry.timestamp x) old).
Proof.
  unfold sort_newest_first at 1. rewrite foldr_app. cbn [foldr insert_newest_first].
  induction old as [|o old IH]; [done|].
  cbn [foldr]. rewrite IH. unfold at_least_as_recent, made_before.
  cbn [List.filter].
  destruct (Z.leb_spec (Entry.timestamp x) (Entry.timestamp o)) as [Hle|Hlt].
  - apply Z.ltb_ge in Hle as Hnlt. rewrite Hnlt.
    by apply insert_before_older.
  - apply Z.ltb_lt in Hlt as Htrue. rewrite Htrue.
    rewrite insert_after_newer.
    + cbn [insert_newest_first sort_newest_first foldr].
      fold (sort_newest_first (made_before (Entry.timestamp x) old)).
      unfold made_before.
      destruct (sort_newest_first _) as [|y rest] eqn:E.
      * cbn [insert_newest_first]. by apply Z.leb_gt in Hlt as ->.
      * cbn [insert_newest_first]. by apply Z.leb_gt in Hlt as ->.
    + apply Forall_forall. intros y Hy.
      rewrite sort_newest_first_perm in Hy.
      apply list_elem_of_In, filter_In in Hy as [_ Hy]. apply Z.leb_le in Hy. lia.
Qed.

Lemma elem_of_take_pushed {A} (x : A) front back n :
  x ∉ front → x ∈ take n (front ++ x :: back) ↔ length front < n.
Proof.
  intros Hnot. split.
  - intros Hin. destruct (Nat.lt_ge_cases (length front) n) as [|Hge]; [done|].
    rewrite take_app_le in Hin by done. destruct Hnot.
    rewrite <- (take_drop n front). apply elem_of_app. by left.
  - intros Hlt. rewrite take_app_ge by lia.
    destruct (n - length front) as [|k] eqn:E; [lia|].
    apply elem_of_app. right. cbn [take]. by left.
Qed.

(** X17.  Whether a completed creation leaves its own backup in the
    index: it does exactly when cleanup is off or fewer entries than the
    capacity are at least as recent as the new one.  So a backup newer than
    all others stays whenever the capacity is not zero, while a backup made
    at the instant of others, or with a clock set back, can be dropped by
    the creation that made it. *)
Theorem new_backup_kept_iff name reason world fs md fs' old new :
  createBackup name reason config world fs = (inr md, fs') →
  stored_index (initialized config fs) = Some old →
  stored_index fs' = Some new →
  Meta.name md ∈ Entry.name <$> Index.backups new
  ↔ Index.autoCleanup (Index.config old) = false
    ∨ length (at_least_as_recent (now world) (Index.backups old))
      < Index.maxBackups (Index.config old).
Proof.
  intros Hcreate Hold Hnew.
  destruct (createBackup_completed config _ _ _ _ _ _ Hcreate)
    as (flows & analysis & old' & _ & _ & _ & Hold' & Hfresh & Hmd & ->).
  rewrite Hold in Hold'. injection Hold' as <-.
  rewrite created_dir_stored_index in Hnew. injection Hnew as <-.
  cbn [Index.backups].
  set (pushed := Index.backups old ++ [new_entry md]).
  assert (Entry.timestamp (new_entry md) = now world) as Hstamp.
  { unfold new_entry, Entry.timestamp. cbn [Entry.meta]. by rewrite Hmd. }
  assert (Meta.name md ∈ Entry.name <$> kept_backups (Index.config old) pushed
          ↔ new_entry md ∈ kept_backups (Index.config old) pushed) as ->.
  { split; [|by apply (list_elem_of_fmap_2 Entry.name)].
    intros (e & He & Hin)%list_elem_of_fmap.
    pose proof (kept_in_pushed _ _ _ Hin) as Hp.
    apply elem_of_app in Hp as [Hp|Hp].
    - destruct Hfresh. rewrite He. by apply list_elem_of_fmap_2.
    - apply list_elem_of_singleton in Hp. by subst. }
  pose proof (List.filter_length_le (λ e, (now world <=? Entry.timestamp e)%Z)
                (Index.backups old)) as Hfilter.
  fold (at_least_as_recent (now world) (Index.backups old)) in Hfilter.
  unfold kept_backups.
  destruct (Index.autoCleanup (Index.config old)) eqn:Hauto; cbn [andb].
  2:{ split; [by left|]. intros _. unfold pushed. apply elem_of_app. right.
      by apply list_elem_of_singleton. }
  destruct (Nat.ltb_spec (Index.maxBackups (Index.config old)) (length pushed))
    as [Hfull|Hroom].
  - unfold pushed. rewrite sort_pushed, Hstamp.
    rewrite elem_of_take_pushed, sort_newest_first_length.
    { split; [by right|]. by intros [|]. }
    rewrite sort_newest_first_perm.
    intros Hin%list_elem_of_In%filter_In. destruct Hin as [Hin _].
    apply Hfresh. apply list_elem_of_In in Hin.
    by apply (list_elem_of_fmap_2 Entry.name) in Hin.
  - unfold pushed in *. rewrite length_app in Hroom. cbn [length] in Hroom.
    split.
    + intros _. right. lia.
    + intros _. apply elem_of_app. right. by apply list_elem_of_singleton.
Qed.

(** X18.  The listing is stable: backups of one and the same instant
    are listed in the order the index holds them, whatever else the index
    holds. *)
Theorem listBackups_stable detailed fs index t :
  stored_index fs = Some index →
  ∃ views,
    listBackups detailed config fs = (inr views, fs)
    ∧ listed_at t views = Entry.name <$> made_at t (Index.backups index).
Proof.
  intros Hindex.
  pose proof (stored_index_initialized config fs index Hindex) as Hinit.
  destruct (stored_index_file fs index Hindex) as (dir & f & Hfs & Hf & Hdoc).
  rewrite listBackups_eq, Hinit.
  assert (file_doc <$> lookup_file metadataFile fs = Some (IndexDoc index)) as ->.
  { rewrite Hfs. unfold lookup_file. cbn [mbind option_bind].
    by rewrite Hf; cbn; rewrite Hdoc. }
  eexists. split; [done|].
  rewrite imap_listed_at by done. by rewrite sort_made_at.
Qed.

End Retention.

(** ** Generated names, second by second *)

Section SameSecond.
Context (config : ServerConfig).
Local Open Scope Z_scope.

Lemma same_second_fields t1 t2 :
  t1 / 1000 = t2 / 1000 →
  t1 / 86400000 = t2 / 86400000
  ∧ t1 mod 86400000 / 3600000 = t2 mod 86400000 / 3600000
  ∧ t1 mod 86400000 / 60000 = t2 mod 86400000 / 60000
  ∧ t1 mod 86400000 / 1000 = t2 mod 86400000 / 1000.
Proof.
  intros Hs.
  assert (t1 / 86400000 = t2 / 86400000) as Hday.
  { change 86400000 with (1000 * 86400).
    by rewrite <- !Z.div_div, Hs by lia. }
  assert (∀ t, t mod 86400000 / 1000 = t / 1000 - 86400 * (t / 86400000)) as Hr.
  { intros t. Z.div_mod_to_equations. lia. }
  assert (t1 mod 86400000 / 1000 = t2 mod 86400000 / 1000) as Hsec.
  { by rewrite !Hr, Hs, Hday. }
  split_and!; [done| | |done].
  - change 3600000 with (1000 * 3600). by rewrite <- !Z.div_div, Hsec by lia.
  - change 60000 with (1000 * 60). by rewrite <- !Z.div_div, Hsec by lia.
Qed.

Lemma compact_name_same_second t1 t2 :
  t1 / 1000 = t2 / 1000 →
  compact_name t1 = compact_name t2 ∧ year_of t1 = year_of t2.
Proof.
  intros (Hday & Hh & Hm & Hs)%same_second_fields.
  unfold compact_name, date_digits, time_digits, year_of.
  by rewrite Hday, Hh, Hm, Hs.
Qed.

Lemma generated_compact_name name t :
  name = None ∨ name = Some [] →
  0 <= year_of t <= 9999 →
  createBackupName name (toISOString t) = inr (compact_name t).
Proof.
  intros Hname Hyear.
  destruct (date_digits_facts t) as [Hdd Hdl], (time_digits_facts t) as [Htd Htl].
  rewrite createBackupName_generates by done.
  rewrite (stripped_timestamp t Hyear), (replace_first_digits _ _ Hdd).
  rewrite replace_first_here.
  reflexivity.
Qed.

(** X19.  Generated names tell seconds apart and nothing finer: once a
    backup made without a name is in the index, every other creation
    without a name within the same second fails and writes nothing, as a
    duplicate when it gets as far as the index. *)
Theorem unnamed_backups_of_one_second_collide name1 name2 reason1 reason2
    world1 world2 fs md fs1 index :
  (name1 = None ∨ name1 = Some []) →
  (name2 = None ∨ name2 = Some []) →
  0 <= year_of (now world1) <= 9999 →
  now world1 / 1000 = now world2 / 1000 →
  createBackup name1 reason1 config world1 fs = (inr md, fs1) →
  stored_index fs1 = Some index →
  Meta.name md ∈ Entry.name <$> Index.backups index →
  ∃ err,
    createBackup name2 reason2 config world2 fs1 = (inl err, fs1)
    ∧ ∀ flows analysis,
        nodeRedFlows world2 = inr flows → analyzeFlows flows = inr analysis →
        err = AlreadyExists (Meta.name md).
Proof.
  intros Hname1 Hname2 Hyear Hsecond Hcreate Hindex Hlisted.
  destruct (compact_name_same_second _ _ Hsecond) as [Hcompact Hyears].
  destruct (createBackup_completed config _ _ _ _ _ _ Hcreate)
    as (_ & _ & _ & _ & Hmd & _).
  rewrite generated_compact_name in Hmd by done. apply (inj inr) in Hmd.
  pose proof (stored_index_initialized config fs1 index Hindex) as Hinit.
  destruct (stored_index_file fs1 index Hindex) as (dir & f & Hfs & Hf & Hdoc).
  rewrite createBackup_steps, Hinit.
  rewrite generated_compact_name by (done || by rewrite <- Hyears).
  rewrite <- Hcompact, Hmd.
  destruct (nodeRedFlows world2) as [e|flows]; [by eexists|].
  destruct (analyzeFlows flows) as [e|analysis] eqn:Ha.
  { eexists. split; [done|]. intros ? ? [= <-]. congruence. }
  assert (file_doc <$> lookup_file metadataFile fs1 = Some (IndexDoc index)) as ->.
  { rewrite Hfs. unfold lookup_file. cbn [mbind option_bind].
    by rewrite Hf; cbn; rewrite Hdoc. }
  assert (existsb (λ b, JsString.eqb (Entry.name b) (Meta.name md))
            (Index.backups index) = true) as ->.
  { apply existsb_exists.
    apply list_elem_of_fmap in Hlisted as (e & He & Hin).
    exists e. split; [by apply list_elem_of_In|]. rewrite He. apply eqb_refl. }
  eexists. split; [done|]. by intros ? ? _ _.
Qed.

End SameSecond.

(** ** The rounding of the latest backup's age *)

Section Minutes.
Local Open Scope Z_scope.

(** An integer of at most 53 bits is a double. *)
Lemma round53_small p : 0 <= p < 2 ^ 53 → Double.round53 p = (p, 0).
Proof.
  intros [Hp Hlt]. unfold Double.round53.
  destruct (Z.leb_spec (Z.log2 p + 1 - 53) 0) as [|Hk]; [reflexivity|].
  exfalso. assert (0 < p) as Hpos.
  { destruct (Z.eq_dec p 0) as [Hz|]; [|lia]. rewrite Hz in Hk. simpl in Hk. lia. }
  apply Z.log2_lt_pow2 in Hlt; lia.
Qed.

(** An integer [p] of [53 + k] bits is rounded to a multiple [q * 2^k] of
    [2^k] within half a step of it, which no multiple of [2^k] separates
    from [p]. *)
Lemma round53_large p k :
  0 < k → 2 ^ (52 + k) <= p < 2 ^ (53 + k) →
  ∃ q, Double.round53 p = (q, k)
       ∧ 2 * p - 2 ^ k <= 2 * (q * 2 ^ k) <= 2 * p + 2 ^ k
       ∧ (∀ h, h * 2 ^ k <= p → h * 2 ^ k <= q * 2 ^ k)
       ∧ (∀ h, p <= h * 2 ^ k → q * 2 ^ k <= h * 2 ^ k).
Proof.
  intros Hk [Hlow Hhigh].
  assert (0 < p) as Hpos.
  { pose proof (Z.pow_pos_nonneg 2 (52 + k)). lia. }
  assert (Z.log2 p = 52 + k) as Hlog.
  { apply Z.log2_unique; [lia|]. replace (Z.succ (52 + k)) with (53 + k) by lia. lia. }
  unfold Double.round53. rewrite Hlog.
  replace (52 + k + 1 - 53) with k by lia.
  destruct (Z.leb_spec k 0) as [|_]; [lia|].
  rewrite Z.shiftr_div_pow2, Z.land_ones, Z.shiftl_1_l by lia.
  assert (2 ^ k = 2 * 2 ^ (k - 1)) as HP.
  { rewrite <- Z.pow_succ_r by lia. f_equal. lia. }
  assert (1 <= 2 ^ (k - 1)) as HH.
  { pose proof (Z.pow_pos_nonneg 2 (k - 1)). lia. }
  pose proof (Z.div_mod p (2 ^ k)) as Hdiv.
  pose proof (Z.mod_pos_bound p (2 ^ k)) as Hmod.
  set (P := 2 ^ k) in *. set (H := 2 ^ (k - 1)) in *.
  set (q := p / P) in *. set (r := p mod P) in *.
  assert (p = P * q + r) as Hpqr by (apply Hdiv; lia).
  assert (0 <= r < P) as Hr by (apply Hmod; lia).
  assert (∀ h, h * P <= p → h <= q) as Hfloor.
  { intros h Hh. destruct (Z.le_gt_cases h q) as [|Hgt]; [assumption|].
    assert (P * (q + 1) <= P * h) by (apply Z.mul_le_mono_nonneg_l; lia). lia. }
  assert (∀ h, p <= h * P → r = 0 ∧ q <= h ∨ q + 1 <= h) as Hceil.
  { intros h Hh. destruct (Z.le_gt_cases (q + 1) h) as [|Hgt]; [right; assumption|].
    left. assert (P * h <= P * q) by (apply Z.mul_le_mono_nonneg_l; lia).
    split; [lia|]. apply (Z.mul_le_mono_pos_l _ _ P); lia. }
  destruct ((H <? r) || (r =? H) && Z.odd q) eqn:Hup.
  - exists (q + 1). split; [reflexivity|].
    assert (H <= r) as Hge.
    { apply orb_true_iff in Hup as [Hup|Hup].
      - apply Z.ltb_lt in Hup. lia.
      - apply andb_true_iff in Hup as [Hup _]. apply Z.eqb_eq in Hup. lia. }
    split; [lia|]. split.
    + intros h Hh. apply Hfloor in Hh.
      apply Z.mul_le_mono_nonneg_r; lia.
    + intros h Hh. apply Hceil in Hh as [[Hz _]|Hh]; [lia|].
      apply Z.mul_le_mono_nonneg_r; lia.
  - exists q. split; [reflexivity|].
    assert (r <= H) as Hle.
    { apply orb_false_iff in Hup as [Hup _]. apply Z.ltb_ge in Hup. lia. }
    split; [lia|]. split.
    + intros h Hh. apply Hfloor in Hh.
      apply Z.mul_le_mono_nonneg_r; lia.
    + intros h Hh. apply Hceil in Hh as [[_ Hh]|Hh];
        apply Z.mul_le_mono_nonneg_r; lia.
Qed.

(** X23.  The age of the latest backup, which the module computes in
    double arithmetic, is the exact one: for a difference of instants
    below [2^53] milliseconds in magnitude, the rounded quotient is the
    number of whole minutes nearest to the difference, half a minute
    counting as a whole one. *)
Theorem round_minutes_exact x :
  - 2 ^ 53 < x < 2 ^ 53 → round_minutes x = (x + 30000) / 60000.
Proof.
  intros Hx. unfold round_minutes.
  rewrite round53_small by lia.
  change (2 ^ 0) with 1. rewrite Z.mul_1_r.
  destruct (Z.eq_dec x 0) as [->|Hne]; [reflexivity|].
  set (a := Z.abs x). assert (1 <= a < 2 ^ 53) as Ha by lia.
  pose proof (Z.div_mod (a * 2 ^ 70) 60000) as Hdiv.
  pose proof (Z.mod_pos_bound (a * 2 ^ 70) 60000) as Hmod.
  set (q0 := a * 2 ^ 70 / 60000) in *. set (rem := (a * 2 ^ 70) mod 60000) in *.
  assert (a * 2 ^ 70 = 60000 * q0 + rem) as Hn by (apply Hdiv; lia).
  assert (0 <= rem < 60000) as Hrem by (apply Hmod; lia).
  clear Hdiv Hmod.
  set (sticky := if rem =? 0 then 0 else 1).
  assert (sticky = 0 ∧ rem = 0 ∨ sticky = 1 ∧ 0 < rem) as Hsticky.
  { unfold sticky. destruct (Z.eqb_spec rem 0); lia. }
  set (t := 2 * q0 + sticky).
  change (2 ^ 70) with 1180591620717411303424 in Hn.
  change (2 ^ 53) with 9007199254740992 in Ha, Hx.
  assert (2 ^ 55 <= t < 2 ^ 109) as Ht.
  { change (2 ^ 55) with 36028797018963968.
    change (2 ^ 109) with 649037107316853453566312041152512. unfold t. lia. }
  assert (0 < t) as Htpos by (change (2 ^ 55) with 36028797018963968 in Ht; lia).
  destruct (Z.log2_spec t Htpos) as [Hlow Hhigh].
  set (k := Z.log2 t - 52).
  assert (3 <= k <= 56) as Hk.
  { unfold k. split.
    - assert (55 <= Z.log2 t); [|lia]. apply Z.log2_le_pow2; lia.
    - assert (Z.log2 t < 109); [|lia]. apply Z.log2_lt_pow2; lia. }
  replace (Z.log2 t) with (52 + k) in Hlow by (unfold k; lia).
  replace (Z.succ (Z.log2 t)) with (53 + k) in Hhigh by (unfold k; lia).
  destruct (round53_large t k) as (q & -> & Herr & Hfloor & Hceil); [lia|lia|].
  assert (2 ^ (70 - k) * 2 ^ k = 2 ^ 70) as HD.
  { rewrite <- Z.pow_add_r by lia. f_equal. lia. }
  assert (2 ^ k <= 2 ^ 56) as HP by (apply Z.pow_le_mono_r; lia).
  assert (0 < 2 ^ k) as HPpos by (apply Z.pow_pos_nonneg; lia).
  change (2 ^ 70) with 1180591620717411303424 in *.
  change (2 ^ 71) with 2361183241434822606848.
  change (2 ^ 56) with 72057594037927936 in HP.
  set (R := q * 2 ^ k) in *. set (P := 2 ^ k) in *. set (D := 2 ^ (70 - k)) in *.
  pose proof (Z.div_mod (x + 30000) 60000) as HK.
  pose proof (Z.mod_pos_bound (x + 30000) 60000) as HKr.
  set (K := (x + 30000) / 60000) in *. set (s := (x + 30000) mod 60000) in *.
  assert (x + 30000 = 60000 * K + s) as HKs by (apply HK; lia).
  assert (0 <= s < 60000) as Hs by (apply HKr; lia).
  clear HK HKr Hlow Hhigh.
  symmetry. apply (Z.div_unique_pos _ _ _ (Z.sgn x * R + 1180591620717411303424 - 2361183241434822606848 * K)); [|ring].
  destruct (Z.lt_total x 0) as [Hneg|[?|Hpos]]; [|lia|].
  - rewrite Z.sgn_neg by assumption.
    assert (a = - x) as Hax by lia.
    pose proof (Hceil (D * (1 - 2 * K))) as Hup.
    replace (D * (1 - 2 * K) * P) with (1180591620717411303424 * (1 - 2 * K)) in Hup
      by (rewrite <- HD; ring).
    assert (t <= 1180591620717411303424 * (1 - 2 * K)) as Htle by (unfold t; lia).
    specialize (Hup Htle). unfold t in *. lia.
  - rewrite Z.sgn_pos by assumption.
    assert (a = x) as Hax by lia.
    pose proof (Hfloor (D * (2 * K - 1))) as Hdown.
    replace (D * (2 * K - 1) * P) with (1180591620717411303424 * (2 * K - 1)) in Hdown
      by (rewrite <- HD; ring).
    assert (1180591620717411303424 * (2 * K - 1) <= t) as Htge by (unfold t; lia).
    specialize (Hdown Htge). unfold t in *. lia.
Qed.

Lemma round_minutes_exact_witness :
  (- 2 ^ 53 < 1800000 < 2 ^ 53)
  ∧ round_minutes 1800000 = (1800000 + 30000) / 60000
  ∧ round_minutes 1800000 = 30
  ∧ round_minutes 9007199254829999 = 150119987581
  ∧ (9007199254829999 + 30000) / 60000 = 150119987580.
Proof.
  split; [split; reflexivity|].
  split; [apply (round_minutes_exact 1800000); split; reflexivity|].
  split; [|split]; vm_compute; reflexivity.
Defined.

End Minutes.

(** ** The floating-point threshold of the health check *)

Section NineTenths.
Context (config : ServerConfig).
Local Open Scope Z_scope.

(** A multiple of [P = 2^k] within half a step of [maxBackups * 0.9]
    (scaled by [2^53]) lies below [count] exactly when nine tenths of
    [maxBackups] do. *)
Lemma rounded_threshold m c P H D q :
  0 <= m → 0 <= c → 1 <= H → P = 2 * H → H <= 2 ^ 49 →
  P * D = 2 ^ 53 → 0 < D →
  2 ^ 52 * P <= m * Double.mantissa_0_9 < 2 ^ 53 * P →
  m * Double.mantissa_0_9 - H <= P * q <= m * Double.mantissa_0_9 + H →
  P * q <= c * 2 ^ 53 ↔ 9 * m <= 10 * c.
Proof.
  unfold Double.mantissa_0_9.
  change (2 ^ 49) with 562949953421312.
  change (2 ^ 52) with 4503599627370496.
  change (2 ^ 53) with 9007199254740992.
  intros Hm Hc HH HP Hsmall HD HDpos Hp Hq. split.
  - intros Hv. lia.
  - intros Hle. destruct (Z.le_gt_cases q (c * D)) as [Hlow|Hhigh].
    + assert (P * q <= P * (c * D)) as Hmul
        by (apply Z.mul_le_mono_nonneg_l; lia).
      replace (P * (c * D)) with (c * (P * D)) in Hmul by ring.
      rewrite HD in Hmul. lia.
    + assert (P * (c * D + 1) <= P * q) as Hmul
        by (apply Z.mul_le_mono_nonneg_l; lia).
      replace (P * (c * D + 1)) with (c * (P * D) + P) in Hmul by ring.
      rewrite HD in Hmul. lia.
Qed.

Lemma at_least_nine_tenths_exact (count maxBackups : nat) :
  Z.of_nat maxBackups <= 2 ^ 50 →
  Double.at_least_nine_tenths count maxBackups = true
  ↔ (9 * maxBackups <= 10 * count)%nat.
Proof.
  intros Hbound.
  assert (9 * Z.of_nat maxBackups <= 10 * Z.of_nat count
          ↔ (9 * maxBackups <= 10 * count)%nat) as <- by lia.
  unfold Double.at_least_nine_tenths, Double.round53.
  pose proof (Nat2Z.is_nonneg maxBackups) as Hm.
  pose proof (Nat2Z.is_nonneg count) as Hc.
  generalize dependent (Z.of_nat maxBackups). intros m Hbound Hm.
  generalize dependent (Z.of_nat count). intros c Hc.
  set (p := m * Double.mantissa_0_9).
  assert (0 <= p) as Hp by (unfold p, Double.mantissa_0_9; lia).
  destruct (Z.leb_spec (Z.log2 p + 1 - 53) 0) as [Hk|Hk].
  - assert (p < 2 ^ 53) as Hlt.
    { destruct (Z.eq_dec p 0) as [->|Hne]; [done|].
      apply Z.log2_lt_pow2; lia. }
    rewrite Z.leb_le. unfold p, Double.mantissa_0_9 in *.
    change (2 ^ 53) with 9007199254740992 in *. change (2 ^ 0) with 1.
    lia.
  - set (k := Z.log2 p + 1 - 53) in *.
    assert (0 < p) as Hpos.
    { destruct (Z.eq_dec p 0) as [Hz|Hne]; [|lia].
      unfold k in Hk. rewrite Hz in Hk. simpl in Hk. lia. }
    destruct (Z.log2_spec p Hpos) as [Hlow Hhigh].
    replace (Z.log2 p) with (52 + k) in Hlow by (unfold k; lia).
    replace (Z.succ (Z.log2 p)) with (53 + k) in Hhigh by (unfold k; lia).
    rewrite Z.pow_add_r in Hlow, Hhigh by lia.
    assert (k <= 50) as Hk50.
    { destruct (Z.le_gt_cases k 50) as [|Hbig]; [done|].
      assert (2 ^ 51 <= 2 ^ k) by (apply Z.pow_le_mono_r; lia).
      unfold p, Double.mantissa_0_9 in *.
      change (2 ^ 50) with 1125899906842624 in *.
      change (2 ^ 51) with 2251799813685248 in *.
      change (2 ^ 52) with 4503599627370496 in *.
      lia. }
    rewrite Z.shiftr_div_pow2, Z.land_ones, Z.shiftl_1_l by lia.
    assert (2 ^ k = 2 * 2 ^ (k - 1)) as HP.
    { rewrite <- Z.pow_succ_r by lia. f_equal. lia. }
    assert (1 <= 2 ^ (k - 1)) as HH.
    { pose proof (Z.pow_pos_nonneg 2 (k - 1)). lia. }
    assert (2 ^ (k - 1) <= 2 ^ 49) as Hsmall by (apply Z.pow_le_mono_r; lia).
    assert (2 ^ k * 2 ^ (53 - k) = 2 ^ 53) as HD.
    { rewrite <- Z.pow_add_r by lia. f_equal. lia. }
    assert (0 < 2 ^ (53 - k)) as HDpos by (apply Z.pow_pos_nonneg; lia).
    pose proof (Z.div_mod p (2 ^ k)) as Hdiv.
    pose proof (Z.mod_pos_bound p (2 ^ k)) as Hmod.
    set (P := 2 ^ k) in *. set (H := 2 ^ (k - 1)) in *.
    set (q := p / P) in *. set (r := p mod P) in *.
    assert (p = P * q + r) as Hpqr by (apply Hdiv; lia).
    assert (0 <= r < P) as Hr by (apply Hmod; lia).
    destruct ((H <? r) || (r =? H) && Z.odd q) eqn:Hup; cbv beta iota;
      rewrite Z.leb_le, (Z.mul_comm _ P).
    + apply (rounded_threshold m c P H (2 ^ (53 - k))); try done.
      assert (H <= r) as Hge.
      { apply orb_true_iff in Hup as [Hup|Hup].
        - apply Z.ltb_lt in Hup. lia.
        - apply andb_true_iff in Hup as [Hup _]. apply Z.eqb_eq in Hup. lia. }
      replace (P * (q + 1)) with (P * q + P) by ring. fold p. lia.
    + apply (rounded_threshold m c P H (2 ^ (53 - k))); try done.
      assert (r <= H) as Hle.
      { apply orb_false_iff in Hup as [Hup _]. apply Z.ltb_ge in Hup. lia. }
      fold p. lia.
Qed.

(** X21.  The one floating-point comparison of the module agrees with
    exact arithmetic: for a capacity up to [2^50], the report on a non-empty
    archive warns that the count approaches the limit exactly when ten times
    the count is at least nine times the capacity, and the warning names the
    count and the capacity. *)
Theorem approaching_limit_iff world fs index :
  stored_index fs = Some index →
  Index.backups index ≠ [] →
  Z.of_nat (Index.maxBackups (Index.config index)) <= 2 ^ 50 →
  ∃ h,
    checkBackupHealth config world fs = (inr h, fs)
    ∧ ∀ count maxBackups,
        ApproachingLimit count maxBackups ∈ Health.issues h
        ↔ count = length (Index.backups index)
          ∧ maxBackups = Index.maxBackups (Index.config index)
          ∧ (9 * maxBackups <= 10 * count)%nat.
Proof.
  intros Hindex Hne Hbound.
  pose proof (checkBackupHealth_report config world fs index Hindex Hne) as Hreport.
  cbv zeta in Hreport.
  eexists. split; [exact Hreport|]. cbn [Health.issues].
  intros count maxBackups. rewrite !elem_of_app, !elem_of_if_singleton. split.
  - intros [[_ [=]]|[[_ [=]]|[[Hnear [= -> ->]]|[_ [=]]]]].
    split_and!; [done..|]. by apply at_least_nine_tenths_exact.
  - intros (-> & -> & Hnear). right. right. left. split; [|done].
    by apply at_least_nine_tenths_exact.
Qed.

End NineTenths.

(** ** What a session leaves *)

Section SessionOutcome.
Context (config : ServerConfig).




End SessionOutcome.

(** ** The properties at work *)

Lemma fresh_store_consistent : consistent (initialized sample_config None).
Proof.
  exists (initialMetadata sample_config).
  split_and!; [by vm_compute|constructor|constructor].
Qed.

Lemma daily_store_consistent : consistent daily_store.
Proof.
  apply (createBackup_consistent sample_config); [apply fresh_store_consistent|].
  intros md Hmd. vm_compute in Hmd. injection Hmd as <-. by vm_compute.
Qed.

Lemma createBackup_frame_witness :
  lookup_file (js "notes.txt")
    (sample_create "c" (sample_time + 60000)%Z stray_store).2
  = lookup_file (js "notes.txt") stray_store
  ∧ lookup_file (js "notes.txt") stray_store = Some stray_file.
Proof.
  split; [|by vm_compute].
  apply (createBackup_frame sample_config (Some (js "c")) None
           (sample_world (sample_time + 60000)%Z) stray_store
           (sample_meta "c" (sample_time + 60000)%Z)
           (sample_create "c" (sample_time + 60000)%Z stray_store).2
           (Index.mk (js "1.0") (Index.mk_config 2 true)
              [sample_entry "daily" sample_time])
           (js "notes.txt")).
  - vm_compute. reflexivity.
  - vm_compute. reflexivity.
  - by vm_compute.
  - by vm_compute.
  - intros (e & He & ->%list_elem_of_singleton)%list_elem_of_fmap.
    by vm_compute in He.
Defined.

Lemma outcome_eq {A} (outcome : result A * Store) (r : result A) :
  outcome.1 = r → outcome = (r, outcome.2).
Proof. destruct outcome. by intros <-. Qed.

Lemma createBackup_failure_store_witness :
  createBackup (Some (js "c")) None sample_config (sample_world sample_time)
    configless_store
  = (inl Undecodable,
     with_snapshot
       (created_meta (js "c") (sample_world sample_time) None sample_analysis)
       sample_flows (initialized sample_config configless_store))
  ∧ has_file (json_file (js "c"))
      (createBackup (Some (js "c")) None sample_config (sample_world sample_time)
         configless_store).2 = true
  ∧ (createBackup (Some (js "Latest")) None sample_config
       (sample_world sample_time) daily_store).2
    = initialized sample_config daily_store.
Proof.
  destruct (createBackup_failure_store sample_config (Some (js "c")) None
              (sample_world sample_time) configless_store) as [_ Horphan].
  destruct (createBackup_failure_store sample_config (Some (js "Latest")) None
              (sample_world sample_time) daily_store) as [Hfailed _].
  split; [|split].
  - apply (Horphan (js "1.0")
             [ sample_entry "a" (sample_time - 2000)%Z;
               sample_entry "b" (sample_time - 1000)%Z ]);
      [reflexivity|reflexivity|reflexivity|vm_compute; reflexivity|reflexivity].
  - vm_compute. reflexivity.
  - destruct (Hfailed (ReservedName (js "Latest")) _
                (outcome_eq _ _ eq_refl))
      as [Hinit|(version & backups & _ & _ & _ & Hdoc & _)]; [exact Hinit|].
    vm_compute in Hdoc. discriminate Hdoc.
Defined.

Lemma createBackup_keeps_names_distinct_witness :
  ∃ new,
    stored_index (sample_create "c" sample_time index_only_store).2 = Some new
    ∧ NoDup (Entry.name <$> Index.backups new).
Proof.
  destruct (createBackup_keeps_names_distinct sample_config (Some (js "c")) None
              (sample_world sample_time) index_only_store
              (sample_meta "c" sample_time)
              (sample_create "c" sample_time index_only_store).2
              (Index.mk (js "1.0") (Index.mk_config 2 true)
                 [ sample_entry "a" (sample_time - 2000)%Z;
                   sample_entry "b" (sample_time - 1000)%Z ]))
    as (new & Hnew & Hdistinct & _).
  - apply outcome_eq. vm_compute. reflexivity.
  - vm_compute. reflexivity.
  - cbn [Index.backups fmap list_fmap].
    apply NoDup_cons. split; [|apply NoDup_singleton].
    rewrite list_elem_of_singleton. by vm_compute.
  - exists new. split; [exact Hnew|exact Hdistinct].
Defined.

Lemma createBackup_appends_witness :
  stored_index (sample_create "c" (sample_time + 60000)%Z daily_store).2
  = Some (Index.mk (js "1.0") (Index.mk_config 2 true)
            [ sample_entry "daily" sample_time;
              new_entry (sample_meta "c" (sample_time + 60000)%Z) ]).
Proof.
  destruct (createBackup_appends sample_config (Some (js "c")) None
              (sample_world (sample_time + 60000)%Z) daily_store
              (sample_meta "c" (sample_time + 60000)%Z)
              (sample_create "c" (sample_time + 60000)%Z daily_store).2
              (Index.mk (js "1.0") (Index.mk_config 2 true)
                 [sample_entry "daily" sample_time]))
    as [Hindex _].
  - apply outcome_eq. vm_compute. reflexivity.
  - vm_compute. reflexivity.
  - right. cbn. lia.
  - exact Hindex.
Defined.


Lemma checkBackupHealth_files_witness :
  (∃ h,
     checkBackupHealth sample_config (sample_world sample_time) index_only_store
     = (inr h, index_only_store)
     ∧ Health.count h = 2
     ∧ CorruptedBackups 2 ∈ Health.issues h)
  ∧ (∃ h,
       checkBackupHealth sample_config (sample_world sample_time)
         payload_only_store = (inr h, payload_only_store)
       ∧ Health.healthy h = true
       ∧ Health.totalSize h = 120%N)
  ∧ (getBackupFlows (js "daily") sample_config payload_only_store).1
    = inl Undecodable.
Proof.
  split; [|split; [|vm_compute; reflexivity]].
  - destruct (checkBackupHealth_files sample_config (sample_world sample_time)
                index_only_store
                (Index.mk (js "1.0") (Index.mk_config 2 true)
                   [ sample_entry "a" (sample_time - 2000)%Z;
                     sample_entry "b" (sample_time - 1000)%Z ]))
      as (h & Hh & Hcount & _ & _ & Hcorrupted).
    + reflexivity.
    + discriminate.
    + exists h. split; [exact Hh|]. split; [exact Hcount|].
      apply Hcorrupted. split; [reflexivity|lia].
  - destruct (checkBackupHealth_files sample_config (sample_world sample_time)
                payload_only_store
                (Index.mk (js "1.0") (Index.mk_config 2 true)
                   [sample_entry "daily" sample_time]))
      as (h & Hh & _ & Hsize & Hhealthy & _).
    + vm_compute. reflexivity.
    + discriminate.
    + exists h. split; [exact Hh|]. split; [|exact Hsize].
      apply Hhealthy. vm_compute. reflexivity.
Defined.

Lemma consistent_archive_is_healthy_witness :
  ∃ h,
    checkBackupHealth sample_config (sample_world (sample_time + 60000)%Z)
      daily_store = (inr h, daily_store)
    ∧ Health.healthy h = true.
Proof.
  destruct (consistent_archive_is_healthy sample_config
              (sample_world (sample_time + 60000)%Z) daily_store
              (Index.mk (js "1.0") (Index.mk_config 2 true)
                 [sample_entry "daily" sample_time]))
    as (h & Hh & Hhealthy & _).
  - apply daily_store_consistent.
  - vm_compute. reflexivity.
  - cbn [Index.backups]. discriminate.
  - exists h. split; [exact Hh|exact Hhealthy].
Defined.

Lemma checkBackupHealth_empty_witness :
  checkBackupHealth sample_config (sample_world sample_time) None
  = (inr (Health.mk false 0 0 None [NoBackupsFound]),
     initialized sample_config None).
Proof.
  apply (checkBackupHealth_empty sample_config (sample_world sample_time) None
           (initialMetadata sample_config)).
  - vm_compute. reflexivity.
  - reflexivity.
Defined.

Lemma undecodable_index_blocks_witness :
  (checkBackupHealth sample_config (sample_world sample_time) broken_store
   = (inr failed_report, broken_store)
   ∧ listBackups None sample_config broken_store = (inl Undecodable, broken_store))
  ∧ ∃ views h,
      listBackups None sample_config configless_store
      = (inr views, configless_store)
      ∧ length views = 2
      ∧ checkBackupHealth sample_config (sample_world sample_time)
          configless_store = (inr h, configless_store)
      ∧ Health.count h = 2
      ∧ InitializationFailed ∈ Health.issues h
      ∧ CorruptedBackups 2 ∈ Health.issues h.
Proof.
  destruct (undecodable_index_blocks sample_config (Some (js "c")) None
              (sample_world sample_time) None broken_store stray_file eq_refl)
    as [Hblocked _].
  destruct (undecodable_index_blocks sample_config (Some (js "c")) None
              (sample_world sample_time) None configless_store
              (mk_file 0
                 (ConfiglessIndexDoc (js "1.0")
                    [ sample_entry "a" (sample_time - 2000)%Z;
                      sample_entry "b" (sample_time - 1000)%Z ])) eq_refl)
    as [_ Hconfigless].
  split.
  - destruct (Hblocked I) as (Hhealth & Hlist & _). split; [exact Hhealth|exact Hlist].
  - destruct (Hconfigless _ _ eq_refl) as [Hlist Hhealth].
    destruct Hhealth as (h & Hh & _ & Hcount & _ & _ & Hfailed & Hcorrupted & _);
      [discriminate|].
    eexists _, h. split; [exact Hlist|]. split; [reflexivity|].
    split; [exact Hh|]. split; [exact Hcount|]. split; [exact Hfailed|].
    apply Hcorrupted. split; [reflexivity|lia].
Defined.

Lemma listed_backups_fetchable_witness :
  ∃ data,
    getBackupFlows (js "daily") sample_config daily_store = (inr data, daily_store)
    ∧ Meta.name (BackupData.metadata data) = js "daily".
Proof.
  destruct (listed_backups_fetchable sample_config (Some true) daily_store
              [view true 0 (sample_entry "daily" sample_time)]
              (listBackups (Some true) sample_config daily_store).2
              (view true 0 (sample_entry "daily" sample_time)))
    as (data & Hfetch & Hname & _).
  - apply daily_store_consistent.
  - apply outcome_eq. vm_compute. reflexivity.
  - apply elem_of_cons. left. reflexivity.
  - exists data. split; [exact Hfetch|exact Hname].
Defined.


Lemma session_keeps_stored_config_witness :
  ∃ index,
    stored_index (after_calls capacity_three sample_session index_only_store)
    = Some index
    ∧ Index.config index = Index.mk_config 2 true.
Proof.
  destruct (session_keeps_stored_config capacity_three sample_session
              index_only_store
              (Index.mk (js "1.0") (Index.mk_config 2 true)
                 [ sample_entry "a" (sample_time - 2000)%Z;
                   sample_entry "b" (sample_time - 1000)%Z ]))
    as (index & Hindex & Hconfig & _).
  - reflexivity.
  - exists index. split; [exact Hindex|exact Hconfig].
Defined.

Lemma index_named_backup_is_lost_witness :
  ∃ md fs',
    createBackup (Some (js "backup_metadata")) None sample_config
      (sample_world sample_time) None = (inr md, fs')
    ∧ getBackupFlows (js "backup_metadata") sample_config fs'
      = (inl Undecodable, fs').
Proof.
  destruct (index_named_backup_is_lost sample_config None
              (sample_world sample_time) None sample_flows
              (Analysis.mk (flows_checksum sample_flows) 1 1
                 (length (stringify sample_flows)))
              (initialMetadata sample_config))
    as (md & fs' & Hcreate & _ & Hfetch).
  - reflexivity.
  - vm_compute. reflexivity.
  - vm_compute. reflexivity.
  - apply not_elem_of_nil.
  - exists md, fs'. split; [exact Hcreate|exact Hfetch].
Defined.

Lemma created_backup_fetchable_witness :
  getBackupFlows (js "daily") sample_config daily_store
  = (inr (BackupData.mk (sample_meta "daily" sample_time) sample_flows),
     daily_store).
Proof.
  destruct (created_backup_fetchable sample_config (Some (js "daily")) None
              (sample_world sample_time) None (sample_meta "daily" sample_time)
              daily_store
              (Index.mk (js "1.0") (Index.mk_config 2 true)
                 [sample_entry "daily" sample_time]))
    as (flows & Hflows & Hfetch).
  - apply fresh_store_consistent.
  - apply outcome_eq. vm_compute. reflexivity.
  - by vm_compute.
  - vm_compute. reflexivity.
  - apply elem_of_cons. left. reflexivity.
  - cbn in Hflows. injection Hflows as <-. exact Hfetch.
Defined.

Lemma evicted_files_deleted_witness :
  has_file (json_file (js "b")) twin_store = true
  ∧ lookup_file (json_file (js "b"))
      (sample_create "c" (sample_time + 1000)%Z twin_store).2 = None
  ∧ lookup_file (json_file (js "b"))
      (createBackup (Some (js "c")) None sample_config
         (stubborn_world (sample_time + 1000)%Z) twin_store).2
    = lookup_file (json_file (js "b")) twin_store.
Proof.
  split; [by vm_compute|]. split.
  - apply (evicted_files_deleted sample_config (Some (js "c")) None
             (sample_world (sample_time + 1000)%Z) twin_store
             (sample_meta "c" (sample_time + 1000)%Z)
             (sample_create "c" (sample_time + 1000)%Z twin_store).2
             (Index.mk (js "1.0") (Index.mk_config 2 true)
                [sample_entry "a" sample_time; sample_entry "b" sample_time])
             (Index.mk (js "1.0") (Index.mk_config 2 true)
                [ sample_entry "c" (sample_time + 1000)%Z;
                  sample_entry "a" sample_time ])
             (sample_entry "b" sample_time)).
    + apply outcome_eq. vm_compute. reflexivity.
    + vm_compute. reflexivity.
    + vm_compute. reflexivity.
    + apply elem_of_app. left. apply elem_of_cons. right.
      apply elem_of_cons. left. reflexivity.
    + cbn [Index.backups]. rewrite !elem_of_cons, elem_of_nil.
      intros [H|[H|[]]]; by vm_compute in H.
    + by vm_compute.
    + reflexivity.
  - apply (evicted_files_deleted sample_config (Some (js "c")) None
             (stubborn_world (sample_time + 1000)%Z) twin_store
             (sample_meta "c" (sample_time + 1000)%Z)
             (createBackup (Some (js "c")) None sample_config
                (stubborn_world (sample_time + 1000)%Z) twin_store).2
             (Index.mk (js "1.0") (Index.mk_config 2 true)
                [sample_entry "a" sample_time; sample_entry "b" sample_time])
             (Index.mk (js "1.0") (Index.mk_config 2 true)
                [ sample_entry "c" (sample_time + 1000)%Z;
                  sample_entry "a" sample_time ])
             (sample_entry "b" sample_time)).
    + apply outcome_eq. vm_compute. reflexivity.
    + vm_compute. reflexivity.
    + vm_compute. reflexivity.
    + apply elem_of_app. left. apply elem_of_cons. right.
      apply elem_of_cons. left. reflexivity.
    + cbn [Index.backups]. rewrite !elem_of_cons, elem_of_nil.
      intros [H|[H|[]]]; by vm_compute in H.
    + by vm_compute.
    + reflexivity.
    + by vm_compute.
Defined.

Lemma new_backup_kept_iff_witness :
  created_name (sample_create "c" sample_time twin_store).1 = Some (js "c")
  ∧ stored_index (sample_create "c" sample_time twin_store).2 = Some twin_index
  ∧ (js "c" ∉ Entry.name <$> Index.backups twin_index).
Proof.
  split; [vm_compute; reflexivity|]. split; [vm_compute; reflexivity|].
  intros Hkept.
  apply (new_backup_kept_iff sample_config (Some (js "c")) None
           (sample_world sample_time) twin_store (sample_meta "c" sample_time)
           (sample_create "c" sample_time twin_store).2 twin_index twin_index)
    in Hkept.
  - destruct Hkept as [Hoff|Hroom]; [discriminate Hoff|].
    vm_compute in Hroom. lia.
  - apply outcome_eq. vm_compute. reflexivity.
  - vm_compute. reflexivity.
  - vm_compute. reflexivity.
Defined.

Lemma listBackups_stable_witness :
  ∃ views,
    listBackups None sample_config twin_store = (inr views, twin_store)
    ∧ listed_at sample_time views = [js "a"; js "b"].
Proof.
  destruct (listBackups_stable sample_config None twin_store twin_index sample_time)
    as (views & Hlist & Horder).
  - vm_compute. reflexivity.
  - exists views. split; [exact Hlist|exact Horder].
Defined.

Lemma unnamed_backups_of_one_second_collide_witness :
  ∃ err,
    createBackup None None sample_config (sample_world (sample_time + 500)%Z)
      (createBackup None None sample_config (sample_world sample_time) None).2
    = (inl err,
       (createBackup None None sample_config (sample_world sample_time) None).2)
    ∧ err = AlreadyExists (js "backup_20251103_063600").
Proof.
  destruct (unnamed_backups_of_one_second_collide sample_config None None None None
              (sample_world sample_time) (sample_world (sample_time + 500)%Z) None
              (sample_meta "backup_20251103_063600" sample_time)
              (createBackup None None sample_config (sample_world sample_time) None).2
              (Index.mk (js "1.0") (Index.mk_config 2 true)
                 [sample_entry "backup_20251103_063600" sample_time]))
    as (err & Hcreate & Herr).
  - by left.
  - by left.
  - vm_compute. split; discriminate.
  - vm_compute. reflexivity.
  - apply outcome_eq. vm_compute. reflexivity.
  - vm_compute. reflexivity.
  - apply elem_of_cons. left. reflexivity.
  - exists err. split; [exact Hcreate|].
    apply (Herr sample_flows
             (Analysis.mk (flows_checksum sample_flows) 1 1
                (length (stringify sample_flows)))); [reflexivity|].
    vm_compute. reflexivity.
Defined.

Lemma approaching_limit_iff_witness :
  ∃ h,
    checkBackupHealth sample_config (sample_world sample_time) index_only_store
    = (inr h, index_only_store)
    ∧ ApproachingLimit 2 2 ∈ Health.issues h.
Proof.
  destruct (approaching_limit_iff sample_config (sample_world sample_time)
              index_only_store
              (Index.mk (js "1.0") (Index.mk_config 2 true)
                 [ sample_entry "a" (sample_time - 2000)%Z;
                   sample_entry "b" (sample_time - 1000)%Z ]))
    as (h & Hh & Hnear).
  - reflexivity.
  - discriminate.
  - by vm_compute.
  - exists h. split; [exact Hh|].
    apply Hnear. split; [reflexivity|]. split; [reflexivity|]. cbn. lia.
Defined.

